(** * Adinera2: the OpenAI content generator

    A shallow embedding of
    [packages/core/src/core/openaiContentGenerator.ts], the adapter that
    lets the agent drive an OpenAI-style chat endpoint through the Gemini
    [ContentGenerator] interface, and the properties its specification
    states about it.

    The source file is present in two listings.  The first one takes
    [contents: Content[]] and filters parts with [filter]/[map]; the
    second one takes the whole [ContentListUnion], maps three provider
    finish signals and returns [embeddings] as a list.  The second
    listing is the one the specification describes; it is embedded in
    [Module Rev2], the first one in [Module Rev1].

    Conventions.
    - A JavaScript string is a [string]; every operation the adapter
      applies to strings (concatenation, [join], [length], comparison
      with a literal, truthiness) is uniform in the alphabet, one
      [ascii] standing for one code unit.
    - An optional or possibly [undefined]/[null] property is an
      [option]; the adapter only ever tests such a property for
      truthiness or reads it behind [?.] and [||].
    - A promise that rejects, or a statement that throws, is the
      [Throw] case of [result]. *)

From Stdlib Require Import String Ascii List Bool ZArith QArith Qround Lia.
From Stdlib Require Import Floats.SpecFloat.
Import ListNotations.

Close Scope Q_scope.
Open Scope string_scope.
Open Scope list_scope.

(** ** JavaScript primitives used by the adapter *)

Module Js.

(** Truthiness of a string: every string but the empty one. *)
Definition truthy (s : string) : bool :=
  match s with
  | EmptyString => false
  | String _ _ => true
  end.

(** [s || ''] on a possibly absent string. *)
Definition or_empty (s : option string) : string :=
  match s with
  | Some t => if truthy t then t else ""
  | None => ""
  end.

(** [n || 0] on a possibly absent integer counter. *)
Definition or_zero (n : option Z) : Z :=
  match n with
  | Some k => if (k =? 0)%Z then 0%Z else k
  | None => 0%Z
  end.

(** [Array.prototype.join] on an array of strings. *)
Fixpoint join (sep : string) (xs : list string) : string :=
  match xs with
  | [] => ""
  | [x] => x
  | x :: rest => x ++ sep ++ join sep rest
  end.

(** [Array.prototype.push]. *)
Definition push {A : Type} (xs : list A) (x : A) : list A := xs ++ [x].

(** [Array.prototype.unshift]. *)
Definition unshift {A : Type} (xs : list A) (x : A) : list A := x :: xs.

(** [Math.ceil(n / d)] for a string length [n] and a positive integer
    [d]: the quotient is taken in the rationals, then rounded up. *)
Definition ceil_div (n : nat) (d : positive) : Z :=
  Qceiling (Z.of_nat n # d).

(** The line feed of ['\n']. *)
Definition LF : string := String (ascii_of_nat 10) EmptyString.

End Js.

(** A JavaScript number that the adapter only carries ([temperature],
    [topP], the coordinates of an embedding): an IEEE 754 value. *)
Definition number : Type := spec_float.

(** ** Errors *)

Inductive Error : Type :=
| TypeError (what : string)
| ProviderError (payload : string).

Inductive result (A : Type) : Type :=
| Ok (a : A)
| Throw (e : Error).

Arguments Ok {A} a.
Arguments Throw {A} e.

Definition bind {A B : Type} (r : result A) (k : A -> result B) : result B :=
  match r with
  | Ok a => k a
  | Throw e => Throw e
  end.

Notation "x <- r ;; k" := (bind r (fun x => k))
  (at level 61, r at next level, right associativity).

(** ** The canonical content model ([@google/genai]) *)

(** A [Part].  Only [text] is read by the adapter; [inlineData] stands
    for the payload of the variants it does not read. *)
Record Part : Type := {
  text : option string;
  inlineData : option string
}.

(** [PartUnion = Part | string]. *)
Inductive PartUnion : Type :=
| PStr (s : string)
| PObj (p : Part).

(** [Content { parts?: Part[]; role?: string }].  The adapter also finds
    bare strings among the parts, so they are [PartUnion]s. *)
Record Content : Type := {
  role : option string;
  parts : option (list PartUnion)
}.

(** [ContentListUnion = Content | Content[] | PartUnion | PartUnion[]]. *)
Inductive ContentListUnion : Type :=
| OneContent (c : Content)
| ManyContents (cs : list Content)
| OnePart (p : PartUnion)
| ManyParts (ps : list PartUnion).

(** [ContentUnion = Content | PartUnion[] | PartUnion], the type of
    [systemInstruction]. *)
Inductive ContentUnion : Type :=
| SIContent (c : Content)
| SIParts (ps : list PartUnion)
| SIPart (p : PartUnion).

(** The members of [FinishReason]. *)
Inductive FinishReason : Type :=
| FINISH_REASON_UNSPECIFIED
| STOP
| MAX_TOKENS
| SAFETY
| RECITATION
| LANGUAGE
| OTHER
| BLOCKLIST
| PROHIBITED_CONTENT
| SPII
| MALFORMED_FUNCTION_CALL
| IMAGE_SAFETY.

Record Candidate : Type := {
  content : Content;
  finishReason : option FinishReason;
  index : option Z
}.

Record UsageMetadata : Type := {
  promptTokenCount : option Z;
  candidatesTokenCount : option Z;
  totalTokenCount : option Z
}.

Record GenerateContentResponse : Type := {
  candidates : option (list Candidate);
  usageMetadata : option UsageMetadata
}.

Record GenerateContentConfig : Type := {
  systemInstruction : option ContentUnion;
  temperature : option number;
  maxOutputTokens : option Z;
  topP : option number
}.

Record GenerateContentParameters : Type := {
  model : string;
  contents : ContentListUnion;
  config : option GenerateContentConfig
}.

Record CountTokensParameters : Type := {
  ct_model : string;
  ct_contents : ContentListUnion
}.

Record CountTokensResponse : Type := {
  totalTokens : option Z
}.

Record EmbedContentParameters : Type := {
  ec_model : string;
  ec_contents : ContentListUnion
}.

Record ContentEmbedding : Type := {
  values : option (list number)
}.

Record EmbedContentResponse : Type := {
  embeddings : option (list ContentEmbedding)
}.

(** ** The provider's types ([openai]) *)

Inductive MessageRole : Type :=
| system
| user
| assistant.

(** [ChatCompletionMessageParam], the three-way union of the source
    with its tag as a field. *)
Record ChatCompletionMessageParam : Type := {
  msg_role : MessageRole;
  msg_content : string
}.

Record ChatCompletionMessage : Type := {
  message_content : option string
}.

Record Choice : Type := {
  message : option ChatCompletionMessage;
  finish_reason : option string
}.

Record CompletionUsage : Type := {
  prompt_tokens : option Z;
  completion_tokens : option Z;
  total_tokens : option Z
}.

Record ChatCompletion : Type := {
  choices : list Choice;
  usage : option CompletionUsage
}.

Record ChoiceDelta : Type := {
  delta_content : option string
}.

Record ChunkChoice : Type := {
  delta : option ChoiceDelta;
  chunk_finish_reason : option string
}.

Record ChatCompletionChunk : Type := {
  chunk_choices : list ChunkChoice
}.

Record Embedding : Type := {
  embedding : list number
}.

Record CreateEmbeddingResponse : Type := {
  data : list Embedding
}.

Record ChatCompletionCreateParams : Type := {
  p_model : string;
  p_messages : list ChatCompletionMessageParam;
  p_temperature : option number;
  p_max_tokens : option Z;
  p_top_p : option number;
  p_stream : bool
}.

Record EmbeddingCreateParams : Type := {
  e_model : string;
  e_input : string
}.

(** What the transport delivers for a streaming call: finitely many
    chunks, then either the end of the stream or a failure. *)
Record Stream : Type := {
  chunks : list ChatCompletionChunk;
  failure : option Error
}.

(** The client held by the generator.  [chat.completions.create] has two
    result shapes, chosen by [stream]; they are two fields here. *)
Record OpenAI : Type := {
  chat_completions_create : ChatCompletionCreateParams -> result ChatCompletion;
  chat_completions_stream : ChatCompletionCreateParams -> result Stream;
  embeddings_create : EmbeddingCreateParams -> result CreateEmbeddingResponse
}.

(** What an [AsyncGenerator] produces when it is drained: the values it
    yields, in order, and the error it ends with, if any. *)
Record Generated (A : Type) : Type := {
  yielded : list A;
  thrown : option Error
}.

Arguments yielded {A} g.
Arguments thrown {A} g.

(** ** Shared small steps *)

(** [x === 'lit'] where [x] may be [undefined] or [null]. *)
Definition strict_eq (x : option string) (lit : string) : bool :=
  match x with
  | Some s => String.eqb s lit
  | None => false
  end.

(** [o?.f] *)
Definition opt_chain {A B : Type} (o : option A) (f : A -> option B) : option B :=
  match o with
  | Some a => f a
  | None => None
  end.

(** [String(x)] for an array element, as [join] applies it: a string is
    itself, a plain object is ["[object Object]"]. *)
Definition toString (p : PartUnion) : string :=
  match p with
  | PStr s => s
  | PObj _ => "[object Object]"
  end.

(** The part literal [{ text: t }]. *)
Definition textPart (t : string) : Part :=
  {| text := Some t; inlineData := None |}.

(** A [Content] read through the [Part] interface, as the casts
    [as Part[]] and [as Part] make the translator do: an object without
    a [text] key. *)
Definition contentAsPart (c : Content) : PartUnion :=
  PObj {| text := None; inlineData := None |}.

(** ** The second listing *)

Module Rev2.

(** The body of [for (const part of parts)], which the listing repeats
    at each place where it gathers text: a bare string is pushed as it
    is, an object only when it has a [text] key with a truthy value. *)
Definition pushTextPart (textParts : list string) (part : PartUnion) : list string :=
  match part with
  | PStr s => Js.push textParts s
  | PObj p =>
      match text p with
      | Some t => if Js.truthy t then Js.push textParts t else textParts
      | None => textParts
      end
  end.

(** [const textParts = []; for (const part of parts) { ... }]. *)
Definition collectTextParts (ps : list PartUnion) : list string :=
  fold_left pushTextPart ps [].

(** The body of [for (const content of contents)]. *)
Definition pushContent (messages : list ChatCompletionMessageParam) (c : Content)
  : list ChatCompletionMessageParam :=
  match parts c with
  | None => messages
  | Some ps =>
      if strict_eq (role c) "user" then
        let textParts := collectTextParts ps in
        if (0 <? List.length textParts)%nat then
          Js.push messages
            {| msg_role := user; msg_content := Js.join Js.LF textParts |}
        else messages
      else if strict_eq (role c) "model" then
        let textParts := collectTextParts ps in
        if (0 <? List.length textParts)%nat then
          Js.push messages
            {| msg_role := assistant; msg_content := Js.join Js.LF textParts |}
        else messages
      else messages
  end.

(** The loop of [convertToOpenAIMessages] over the normalized
    [contents], starting from [messages = []]. *)
Definition translateContents (cs : list Content) : list ChatCompletionMessageParam :=
  fold_left pushContent cs [].

(** ['role' in x] for the two kinds of object the union holds. *)
Definition hasRole (c : Content) : bool :=
  match role c with
  | Some _ => true
  | None => false
  end.

(** [convertToOpenAIMessages].  The source inspects the value at run
    time; on the four alternatives of the union its tests come out as
    follows.
    - [typeof contentsUnion === 'string']: a bare string, returned as
      one [user] message.
    - An array whose first element is a string: all elements are joined
      as strings and returned as one [user] message.
    - An array whose first element is an object with a [role] key:
      these are the [contents].  A [Part] has no such key.
    - Any other array, the empty one included: wrapped as the parts of
      one [user] Content.
    - A single object with a [role] key: the one element of [contents].
    - Any other single object: wrapped as the only part of one [user]
      Content.
    The loop over [contents] follows. *)
Definition convertToOpenAIMessages (contentsUnion : ContentListUnion)
  : list ChatCompletionMessageParam :=
  match contentsUnion with
  | OnePart (PStr s) =>
      [ {| msg_role := user; msg_content := s |} ]
  | ManyParts (PStr s :: rest) =>
      [ {| msg_role := user;
           msg_content := Js.join Js.LF (map toString (PStr s :: rest)) |} ]
  | ManyParts ps =>
      translateContents [ {| role := Some "user"; parts := Some ps |} ]
  | ManyContents [] =>
      translateContents [ {| role := Some "user"; parts := Some [] |} ]
  | ManyContents (c :: rest) =>
      if hasRole c then translateContents (c :: rest)
      else
        translateContents
          [ {| role := Some "user";
               parts := Some (map contentAsPart (c :: rest)) |} ]
  | OneContent c =>
      if hasRole c then translateContents [c]
      else
        translateContents
          [ {| role := Some "user"; parts := Some [contentAsPart c] |} ]
  | OnePart (PObj p) =>
      translateContents [ {| role := Some "user"; parts := Some [PObj p] |} ]
  end.

(** [convertToGeminiResponse]: the first choice's text, the mapped
    finish reason and the usage counters, in a fresh response. *)
Definition convertToGeminiResponse (response : ChatCompletion)
  : GenerateContentResponse :=
  let choice := hd_error (choices response) in
  let content :=
    Js.or_empty
      (opt_chain (opt_chain choice message) message_content) in
  let finishReason :=
    if strict_eq (opt_chain choice finish_reason) "stop" then STOP
    else if strict_eq (opt_chain choice finish_reason) "length" then MAX_TOKENS
    else if strict_eq (opt_chain choice finish_reason) "content_filter" then SAFETY
    else OTHER in
  {| candidates :=
       Some [ {| content :=
                   {| role := Some "model";
                      parts := Some [PObj (textPart content)] |};
                 finishReason := Some finishReason;
                 index := Some 0%Z |} ];
     usageMetadata :=
       Some {| promptTokenCount :=
                 Some (Js.or_zero (opt_chain (usage response) prompt_tokens));
               candidatesTokenCount :=
                 Some (Js.or_zero (opt_chain (usage response) completion_tokens));
               totalTokenCount :=
                 Some (Js.or_zero (opt_chain (usage response) total_tokens)) |} |}.

(** Truthiness of [request.config?.systemInstruction]: of all the
    values of [ContentUnion] only the empty string is falsy. *)
Definition truthyInstruction (si : ContentUnion) : bool :=
  match si with
  | SIPart (PStr s) => Js.truthy s
  | _ => true
  end.

(** The chain that computes [systemText], the same in
    [generateContent] and in [streamGenerator]. *)
Definition systemTextOf (si : ContentUnion) : string :=
  match si with
  | SIPart (PStr s) => s
  | SIPart (PObj p) =>
      match text p with
      | Some t => t
      | None => ""
      end
  | SIParts ps => Js.join Js.LF (collectTextParts ps)
  | SIContent c =>
      match parts c with
      | Some ps => Js.join Js.LF (collectTextParts ps)
      | None => ""
      end
  end.

(** [// Add system instruction if present]: the block both functions
    run on the translated messages. *)
Definition addSystemInstruction (request : GenerateContentParameters)
    (messages : list ChatCompletionMessageParam)
  : list ChatCompletionMessageParam :=
  match opt_chain (config request) systemInstruction with
  | Some si =>
      if truthyInstruction si then
        let systemText := systemTextOf si in
        if Js.truthy systemText then
          Js.unshift messages {| msg_role := system; msg_content := systemText |}
        else messages
      else messages
  | None => messages
  end.

(** The argument [generateContent] passes to
    [client.chat.completions.create]. *)
Definition generateContent_params (request : GenerateContentParameters)
  : ChatCompletionCreateParams :=
  let messages := convertToOpenAIMessages (contents request) in
  let messages := addSystemInstruction request messages in
  {| p_model := model request;
     p_messages := messages;
     p_temperature := opt_chain (config request) temperature;
     p_max_tokens := opt_chain (config request) maxOutputTokens;
     p_top_p := opt_chain (config request) topP;
     p_stream := false |}.

Definition generateContent (client : OpenAI) (request : GenerateContentParameters)
  : result GenerateContentResponse :=
  response <- chat_completions_create client (generateContent_params request) ;;
  Ok (convertToGeminiResponse response).

(** The argument [streamGenerator] passes to
    [client.chat.completions.create]. *)
Definition streamGenerator_params (request : GenerateContentParameters)
  : ChatCompletionCreateParams :=
  let messages := convertToOpenAIMessages (contents request) in
  let messages := addSystemInstruction request messages in
  {| p_model := model request;
     p_messages := messages;
     p_temperature := opt_chain (config request) temperature;
     p_max_tokens := opt_chain (config request) maxOutputTokens;
     p_top_p := opt_chain (config request) topP;
     p_stream := true |}.

(** One turn of [for await (const chunk of stream)]: the new value of
    [accumulatedText] and the response that is yielded. *)
Definition yieldChunk (accumulatedText : string) (chunk : ChatCompletionChunk)
  : string * GenerateContentResponse :=
  let choice := hd_error (chunk_choices chunk) in
  let d := Js.or_empty (opt_chain (opt_chain choice delta) delta_content) in
  let accumulatedText := (accumulatedText ++ d)%string in
  let finishReason :=
    if strict_eq (opt_chain choice chunk_finish_reason) "stop" then STOP
    else if strict_eq (opt_chain choice chunk_finish_reason) "length" then MAX_TOKENS
    else if strict_eq (opt_chain choice chunk_finish_reason) "content_filter" then SAFETY
    else OTHER in
  (accumulatedText,
   {| candidates :=
        Some [ {| content :=
                    {| role := Some "model";
                       parts := Some [PObj (textPart accumulatedText)] |};
                  finishReason := Some finishReason;
                  index := Some 0%Z |} ];
      usageMetadata :=
        Some {| promptTokenCount := Some 0%Z;
                candidatesTokenCount := Some 0%Z;
                totalTokenCount := Some 0%Z |} |}).

(** The whole loop, from a given [accumulatedText]. *)
Fixpoint forAwait (accumulatedText : string) (stream : list ChatCompletionChunk)
  : list GenerateContentResponse :=
  match stream with
  | [] => []
  | chunk :: rest =>
      let (accumulatedText', response) := yieldChunk accumulatedText chunk in
      response :: forAwait accumulatedText' rest
  end.

(** [generateContentStream] always resolves to the generator; what the
    generator produces when drained is computed here. *)
Definition generateContentStream (client : OpenAI) (request : GenerateContentParameters)
  : Generated GenerateContentResponse :=
  match chat_completions_stream client (streamGenerator_params request) with
  | Throw e => {| yielded := []; thrown := Some e |}
  | Ok stream =>
      {| yielded := forAwait "" (chunks stream); thrown := failure stream |}
  end.

Definition countTokens (request : CountTokensParameters) : result CountTokensResponse :=
  let messages := convertToOpenAIMessages (ct_contents request) in
  let totalText := Js.join "" (map msg_content messages) in
  let estimatedTokens := Js.ceil_div (String.length totalText) 4 in
  Ok {| totalTokens := Some estimatedTokens |}.

(** The argument [embedContent] passes to [client.embeddings.create]. *)
Definition embedContent_params (request : EmbedContentParameters)
  : EmbeddingCreateParams :=
  let messages := convertToOpenAIMessages (ec_contents request) in
  let text := Js.join Js.LF (map msg_content messages) in
  {| e_model := "text-embedding-3-small"; e_input := text |}.

(** [response.data[0].embedding] throws when [data] is empty. *)
Definition embedContent (client : OpenAI) (request : EmbedContentParameters)
  : result EmbedContentResponse :=
  response <- embeddings_create client (embedContent_params request) ;;
  match data response with
  | [] => Throw (TypeError "Cannot read properties of undefined (reading 'embedding')")
  | first :: _ =>
      Ok {| embeddings := Some [ {| values := Some (embedding first) |} ] |}
  end.

End Rev2.

(** ** The first listing *)

Module Rev1.

(** [parts.filter((part) => 'text' in part && part.text)
         .map((part) => part.text)].
    The [in] operator throws on a primitive string. *)
Fixpoint filterText (ps : list PartUnion) : result (list string) :=
  match ps with
  | [] => Ok []
  | PStr _ :: _ =>
      Throw (TypeError "Cannot use 'in' operator to search for 'text' in a string")
  | PObj p :: rest =>
      kept <- filterText rest ;;
      Ok (match text p with
          | Some t => if Js.truthy t then t :: kept else kept
          | None => kept
          end)
  end.

(** [content.parts.filter(...)], which throws when [parts] is
    [undefined]. *)
Definition textPartsOf (c : Content) : result (list string) :=
  match parts c with
  | Some ps => filterText ps
  | None => Throw (TypeError "Cannot read properties of undefined (reading 'filter')")
  end.

(** The body of [for (const content of contents)]. *)
Definition pushContent (messages : list ChatCompletionMessageParam) (c : Content)
  : result (list ChatCompletionMessageParam) :=
  if strict_eq (role c) "user" then
    textParts <- textPartsOf c ;;
    if (0 <? List.length textParts)%nat then
      Ok (Js.push messages
            {| msg_role := user; msg_content := Js.join Js.LF textParts |})
    else Ok messages
  else if strict_eq (role c) "model" then
    textParts <- textPartsOf c ;;
    if (0 <? List.length textParts)%nat then
      Ok (Js.push messages
            {| msg_role := assistant; msg_content := Js.join Js.LF textParts |})
    else Ok messages
  else Ok messages.

Fixpoint forOf (messages : list ChatCompletionMessageParam) (cs : list Content)
  : result (list ChatCompletionMessageParam) :=
  match cs with
  | [] => Ok messages
  | c :: rest => messages' <- pushContent messages c ;; forOf messages' rest
  end.

Definition convertToOpenAIMessages (contents : list Content)
  : result (list ChatCompletionMessageParam) :=
  forOf [] contents.

Definition convertToGeminiResponse (response : ChatCompletion)
  : GenerateContentResponse :=
  let choice := hd_error (choices response) in
  let content :=
    Js.or_empty
      (opt_chain (opt_chain choice message) message_content) in
  {| candidates :=
       Some [ {| content :=
                   {| role := Some "model";
                      parts := Some [PObj (textPart content)] |};
                 finishReason :=
                   Some (if strict_eq (opt_chain choice finish_reason) "stop"
                         then STOP else OTHER);
                 index := Some 0%Z |} ];
     usageMetadata :=
       Some {| promptTokenCount :=
                 Some (Js.or_zero (opt_chain (usage response) prompt_tokens));
               candidatesTokenCount :=
                 Some (Js.or_zero (opt_chain (usage response) completion_tokens));
               totalTokenCount :=
                 Some (Js.or_zero (opt_chain (usage response) total_tokens)) |} |}.

(** One turn of [for await (const chunk of stream)] in
    [generateContentStream]. *)
Definition yieldChunk (accumulatedText : string) (chunk : ChatCompletionChunk)
  : string * GenerateContentResponse :=
  let choice := hd_error (chunk_choices chunk) in
  let d := Js.or_empty (opt_chain (opt_chain choice delta) delta_content) in
  let accumulatedText := (accumulatedText ++ d)%string in
  (accumulatedText,
   {| candidates :=
        Some [ {| content :=
                    {| role := Some "model";
                       parts := Some [PObj (textPart accumulatedText)] |};
                  finishReason :=
                    Some (if strict_eq (opt_chain choice chunk_finish_reason) "stop"
                          then STOP else OTHER);
                  index := Some 0%Z |} ];
      usageMetadata :=
        Some {| promptTokenCount := Some 0%Z;
                candidatesTokenCount := Some 0%Z;
                totalTokenCount := Some 0%Z |} |}).

Fixpoint forAwait (accumulatedText : string) (stream : list ChatCompletionChunk)
  : list GenerateContentResponse :=
  match stream with
  | [] => []
  | chunk :: rest =>
      let (accumulatedText', response) := yieldChunk accumulatedText chunk in
      response :: forAwait accumulatedText' rest
  end.

(** This listing's [EmbedContentParameters] has a single [content]
    and its [EmbedContentResponse] a single [embedding]. *)
Record EmbedContentParameters : Type := {
  ec_content : Content
}.

Record EmbedContentResponse : Type := {
  ec_embedding : ContentEmbedding
}.

(** The text [embedContent] sends to [client.embeddings.create]. *)
Definition embedContent_text (request : EmbedContentParameters) : result string :=
  textParts <- textPartsOf (ec_content request) ;;
  Ok (Js.join Js.LF textParts).

Definition embedContent (client : OpenAI) (request : EmbedContentParameters)
  : result EmbedContentResponse :=
  text <- embedContent_text request ;;
  response <-
    embeddings_create client
      {| e_model := "text-embedding-3-small"; e_input := text |} ;;
  match data response with
  | [] => Throw (TypeError "Cannot read properties of undefined (reading 'embedding')")
  | first :: _ =>
      Ok {| ec_embedding := {| values := Some (embedding first) |} |}
  end.

End Rev1.

(** ** The specification's vocabulary *)

(** The text a part bears, if any: a bare string bears itself, a part
    object bears its [text] when that is a non-empty string. *)
Definition textBearing (p : PartUnion) : option string :=
  match p with
  | PStr s => Some s
  | PObj q =>
      match text q with
      | Some t => if Js.truthy t then Some t else None
      | None => None
      end
  end.

(** The text segments of a list of parts, in order. *)
Fixpoint segments (ps : list PartUnion) : list string :=
  match ps with
  | [] => []
  | p :: rest =>
      match textBearing p with
      | Some t => t :: segments rest
      | None => segments rest
      end
  end.

(** The text segments of a Turn. *)
Definition turnTexts (c : Content) : list string :=
  match parts c with
  | Some ps => segments ps
  | None => []
  end.

(** The provider role of a Turn's role: [user] stays [user], [model]
    becomes [assistant], nothing else is translated. *)
Definition providerRole (r : option string) : option MessageRole :=
  match r with
  | Some s =>
      if String.eqb s "user" then Some user
      else if String.eqb s "model" then Some assistant
      else None
  | None => None
  end.

(** The message a Turn becomes: none when it has no text segment or no
    translated role, else one message with the newline-joined
    segments. *)
Definition turnMessage (c : Content) : list ChatCompletionMessageParam :=
  match providerRole (role c), turnTexts c with
  | Some r, t :: ts => [ {| msg_role := r; msg_content := Js.join Js.LF (t :: ts) |} ]
  | _, _ => []
  end.

(** The closed finish-reason table of the Response Normalizer. *)
Inductive FinishTable : option string -> FinishReason -> Prop :=
| table_stop : FinishTable (Some "stop") STOP
| table_length : FinishTable (Some "length") MAX_TOKENS
| table_content_filter : FinishTable (Some "content_filter") SAFETY
| table_other : forall signal,
    signal <> Some "stop" ->
    signal <> Some "length" ->
    signal <> Some "content_filter" ->
    FinishTable signal OTHER.

(** The finish signal of a provider response and of a stream chunk:
    that of the first choice, when there is one. *)
Definition responseSignal (response : ChatCompletion) : option string :=
  match choices response with
  | [] => None
  | c :: _ => finish_reason c
  end.

Definition chunkSignal (chunk : ChatCompletionChunk) : option string :=
  match chunk_choices chunk with
  | [] => None
  | c :: _ => chunk_finish_reason c
  end.

(** The delta of a stream chunk: the text of its first choice's delta,
    empty when any link is missing. *)
Definition chunkDelta (chunk : ChatCompletionChunk) : string :=
  match chunk_choices chunk with
  | [] => ""
  | c :: _ =>
      match delta c with
      | Some d =>
          match delta_content d with
          | Some t => t
          | None => ""
          end
      | None => ""
      end
  end.

(** The text of the first provider choice, empty when absent. *)
Definition firstChoiceText (response : ChatCompletion) : string :=
  match choices response with
  | [] => ""
  | c :: _ =>
      match message c with
      | Some m =>
          match message_content m with
          | Some t => t
          | None => ""
          end
      | None => ""
      end
  end.

(** A usage counter of the provider, 0 when it or [usage] is missing. *)
Definition providerCounter (response : ChatCompletion)
    (counter : CompletionUsage -> option Z) : Z :=
  match usage response with
  | Some u =>
      match counter u with
      | Some n => n
      | None => 0%Z
      end
  | None => 0%Z
  end.

(** The canonical response with one candidate at index 0, of role
    [model], with one text part. *)
Definition oneCandidate (t : string) (reason : FinishReason) (u : UsageMetadata)
  : GenerateContentResponse :=
  {| candidates :=
       Some [ {| content := {| role := Some "model";
                               parts := Some [PObj (textPart t)] |};
                 finishReason := Some reason;
                 index := Some 0%Z |} ];
     usageMetadata := Some u |}.

(** The text of a response: that of the single part of its single
    candidate. *)
Definition candidateText (r : GenerateContentResponse) : option string :=
  match candidates r with
  | Some [c] =>
      match parts (content c) with
      | Some [PObj p] => text p
      | _ => None
      end
  | _ => None
  end.

(** The finish reason of a response's single candidate. *)
Definition candidateFinish (r : GenerateContentResponse) : option FinishReason :=
  match candidates r with
  | Some [c] => finishReason c
  | _ => None
  end.

(** The elements of a [systemInstruction], whichever of its encodings
    it comes in. *)
Definition instructionParts (si : ContentUnion) : list PartUnion :=
  match si with
  | SIPart p => [p]
  | SIParts ps => ps
  | SIContent c =>
      match parts c with
      | Some ps => ps
      | None => []
      end
  end.

(** The effective system text: the newline-join of the text-bearing
    elements. *)
Definition effectiveSystemText (si : ContentUnion) : string :=
  Js.join Js.LF (segments (instructionParts si)).

(** The system message of a request: one when the effective text is
    non-empty, none otherwise. *)
Definition systemMessages (si : option ContentUnion) : list ChatCompletionMessageParam :=
  match si with
  | Some i =>
      if Js.truthy (effectiveSystemText i)
      then [ {| msg_role := system; msg_content := effectiveSystemText i |} ]
      else []
  | None => []
  end.

(** An array of Turns is recognised by its first element's role. *)
Definition startsWithTurn (cs : list Content) : bool :=
  match cs with
  | [] => true
  | c :: _ => Rev2.hasRole c
  end.

(** The Turns the first listing is typed for: [parts] present and made
    of part objects. *)
Definition typedTurn (c : Content) : bool :=
  match parts c with
  | Some ps => forallb (fun p => match p with PObj _ => true | PStr _ => false end) ps
  | None => false
  end.

(** ** Scenarios *)

(** The numbers 0.25 and 0.5. *)
Definition quarter : number := S754_finite false 1 (-2).
Definition half : number := S754_finite false 1 (-1).

(** A chunk carrying a delta and, possibly, a finish signal. *)
Definition chunkOf (d : string) (signal : option string) : ChatCompletionChunk :=
  {| chunk_choices :=
       [ {| delta := Some {| delta_content := Some d |};
            chunk_finish_reason := signal |} ] |}.

(** A provider that answers every chat call with ["Hi"] and [stop],
    streams ["The"], [" answer"], [" is 4"], and embeds everything as
    one two-dimensional vector. *)
Definition scenarioClient : OpenAI :=
  {| chat_completions_create := fun _ =>
       Ok {| choices :=
               [ {| message := Some {| message_content := Some "Hi" |};
                    finish_reason := Some "stop" |} ];
             usage := None |};
     chat_completions_stream := fun _ =>
       Ok {| chunks := [ chunkOf "The" None;
                         chunkOf " answer" None;
                         chunkOf " is 4" (Some "stop") ];
             failure := None |};
     embeddings_create := fun _ =>
       Ok {| data := [ {| embedding := [quarter; half] |} ] |} |}.

(** One [user] Turn ["Hello"] with the system instruction
    ["Be terse"]. *)
Definition scenarioRequest : GenerateContentParameters :=
  {| model := "gpt-4o";
     contents :=
       ManyContents
         [ {| role := Some "user"; parts := Some [PObj (textPart "Hello")] |} ];
     config :=
       Some {| systemInstruction := Some (SIPart (PStr "Be terse"));
               temperature := None;
               maxOutputTokens := None;
               topP := None |} |}.

(** A short dialogue with a Turn that bears no text. *)
Definition scenarioDialogue : list Content :=
  [ {| role := Some "user";
       parts := Some [PObj (textPart "What is"); PObj (textPart "2 + 2?")] |};
    {| role := Some "model";
       parts := Some [PObj {| text := None; inlineData := Some "image/png" |}] |};
    {| role := Some "model"; parts := Some [PObj (textPart "4")] |} ].

(** An embedding request whose content has three text parts. *)
Definition scenarioEmbedding : EmbedContentParameters :=
  {| ec_model := "gemini-embedding-001";
     ec_contents :=
       OneContent
         {| role := Some "user";
            parts := Some [PObj (textPart "alpha");
                           PObj (textPart "beta");
                           PObj (textPart "gamma")] |} |}.

(** A part object whose [text] is the empty string. *)
Definition emptyTextPart (payload : option string) : PartUnion :=
  PObj {| text := Some ""; inlineData := payload |}.

(** ** The key entry dialog *)

(** The input filter of [packages/cli/src/ui/auth/ApiAuthDialog.tsx]:
    [text.replace(/[^a-zA-Z0-9_-]/g, '').replace(/[\r\n]/g, '')]. *)
Module ApiAuthDialog.

(** [text.replace(/[...]/g, '')] for a class of single code units:
    every unit in the class is removed. *)
Fixpoint removeAll (inClass : ascii -> bool) (text : string) : string :=
  match text with
  | EmptyString => EmptyString
  | String c rest =>
      if inClass c then removeAll inClass rest
      else String c (removeAll inClass rest)
  end.

(** A range [lo-hi] of a character class, by code. *)
Definition between (lo hi : nat) (c : ascii) : bool :=
  (lo <=? nat_of_ascii c)%nat && (nat_of_ascii c <=? hi)%nat.

(** The units [a-zA-Z0-9_-]: codes 97 to 122, 65 to 90, 48 to 57, 95
    and 45. *)
Definition keyChar (c : ascii) : bool :=
  between 97 122 c || between 65 90 c || between 48 57 c
  || (nat_of_ascii c =? 95)%nat || (nat_of_ascii c =? 45)%nat.

(** The class [[^a-zA-Z0-9_-]]. *)
Definition notKeyChar (c : ascii) : bool := negb (keyChar c).

(** The class [[\r\n]]: codes 13 and 10. *)
Definition lineBreak (c : ascii) : bool :=
  (nat_of_ascii c =? 13)%nat || (nat_of_ascii c =? 10)%nat.

Definition inputFilter (text : string) : string :=
  removeAll lineBreak (removeAll notKeyChar text).

End ApiAuthDialog.

(** ** Further vocabulary *)

(** Every unit of a string satisfies a test. *)
Fixpoint allChars (test : ascii -> bool) (s : string) : bool :=
  match s with
  | EmptyString => true
  | String c rest => test c && allChars test rest
  end.

(** The Turns the translator makes messages of: those of role [user]
    or [model]. *)
Definition isDialogueTurn (c : Content) : bool :=
  match providerRole (role c) with
  | Some _ => true
  | None => false
  end.

(** The text segments a Turn contributes to the dialogue. *)
Definition dialogueTexts (c : Content) : list string :=
  if isDialogueTurn c then turnTexts c else [].

(** The characters a Turn contributes to the translated text: those of
    its segments and one line feed between two segments. *)
Definition turnChars (c : Content) : nat :=
  match dialogueTexts c with
  | [] => 0
  | t :: ts => list_sum (map String.length (t :: ts)) + List.length ts
  end.

(** No bare string among the parts is empty. *)
Definition noEmptyString (ps : list PartUnion) : bool :=
  forallb (fun p => match p with PStr s => Js.truthy s | PObj _ => true end) ps.

Definition noEmptyStringIn (c : Content) : bool :=
  match parts c with
  | Some ps => noEmptyString ps
  | None => true
  end.

(** The Turns the first listing translates without throwing: those it
    does not read, and those whose parts are typed. *)
Definition readable1 (c : Content) : bool :=
  if isDialogueTurn c then typedTurn c else true.

(** The usage record of a streamed response. *)
Definition zeroUsage : UsageMetadata :=
  {| promptTokenCount := Some 0%Z;
     candidatesTokenCount := Some 0%Z;
     totalTokenCount := Some 0%Z |}.

(** A system Turn followed by the scenario's dialogue. *)
Definition scenarioWithSystemTurn : list Content :=
  {| role := Some "system"; parts := Some [PObj (textPart "Be terse")] |}
  :: scenarioDialogue.

(** ** Facts about the JavaScript primitives *)

Lemma append_empty_r (s : string) : (s ++ "")%string = s.
Proof.
  induction s as [|a s IH]; simpl; [reflexivity | now rewrite IH].
Qed.

Lemma append_assoc (a b c : string) :
  ((a ++ b) ++ c)%string = (a ++ (b ++ c))%string.
Proof.
  induction a as [|x a IH]; simpl; [reflexivity | now rewrite IH].
Qed.

Lemma length_append (a b : string) :
  String.length (a ++ b) = (String.length a + String.length b)%nat.
Proof.
  induction a as [|x a IH]; simpl; [reflexivity | now rewrite IH].
Qed.

Lemma truthy_false_iff (s : string) : Js.truthy s = false <-> s = "".
Proof.
  destruct s; simpl; split; intros H; try reflexivity; discriminate.
Qed.

Lemma or_empty_some (t : string) : Js.or_empty (Some t) = t.
Proof.
  destruct t; reflexivity.
Qed.

Lemma or_zero_some (n : Z) : Js.or_zero (Some n) = n.
Proof.
  unfold Js.or_zero.
  destruct (Z.eqb_spec n 0) as [E|_]; [now rewrite E | reflexivity].
Qed.

Lemma join_cons (sep x y : string) (rest : list string) :
  Js.join sep (x :: y :: rest) = (x ++ sep ++ Js.join sep (y :: rest))%string.
Proof.
  reflexivity.
Qed.

(** Joining without a separator is plain concatenation. *)
Lemma join_empty_cons (x : string) (rest : list string) :
  Js.join "" (x :: rest) = (x ++ Js.join "" rest)%string.
Proof.
  destruct rest as [|y rest]; simpl; [now rewrite append_empty_r | reflexivity].
Qed.

Lemma join_empty_snoc (xs : list string) (x : string) :
  Js.join "" (xs ++ [x]) = (Js.join "" xs ++ x)%string.
Proof.
  induction xs as [|y xs IH].
  - reflexivity.
  - change ((y :: xs) ++ [x]) with (y :: (xs ++ [x])).
    rewrite !join_empty_cons, IH, append_assoc. reflexivity.
Qed.

Lemma join_empty_length (xs : list string) :
  String.length (Js.join "" xs) = list_sum (map String.length xs).
Proof.
  induction xs as [|x xs IH].
  - reflexivity.
  - rewrite join_empty_cons, length_append, IH. reflexivity.
Qed.

(** [Math.ceil] of a quotient, in integer terms. *)
Lemma ceil_div_bounds (n : nat) (d : positive) :
  (Z.pos d * (Js.ceil_div n d - 1) < Z.of_nat n <= Z.pos d * Js.ceil_div n d)%Z.
Proof.
  unfold Js.ceil_div, Qceiling, Qfloor, Qopp. cbn [Qnum Qden].
  pose proof (Z.div_mod (- Z.of_nat n) (Z.pos d) ltac:(lia)) as E.
  pose proof (Z.mod_pos_bound (- Z.of_nat n) (Z.pos d) ltac:(lia)) as B.
  set (q := (- Z.of_nat n / Z.pos d)%Z) in *.
  set (r := (- Z.of_nat n mod Z.pos d)%Z) in *.
  lia.
Qed.

(** ** Facts about the strict comparisons and the optional chains *)

Lemma strict_eq_true (x : option string) (lit : string) :
  strict_eq x lit = true <-> x = Some lit.
Proof.
  destruct x as [s|]; simpl.
  - rewrite String.eqb_eq. split; intros H; [now subst | now inversion H].
  - split; discriminate.
Qed.

Lemma strict_eq_false (x : option string) (lit : string) :
  strict_eq x lit = false <-> x <> Some lit.
Proof.
  rewrite <- strict_eq_true. destruct (strict_eq x lit); split; congruence.
Qed.

Lemma responseSignal_chain (response : ChatCompletion) :
  opt_chain (hd_error (choices response)) finish_reason = responseSignal response.
Proof.
  unfold responseSignal. destruct (choices response); reflexivity.
Qed.

Lemma chunkSignal_chain (chunk : ChatCompletionChunk) :
  opt_chain (hd_error (chunk_choices chunk)) chunk_finish_reason = chunkSignal chunk.
Proof.
  unfold chunkSignal. destruct (chunk_choices chunk); reflexivity.
Qed.

Lemma chunkDelta_chain (chunk : ChatCompletionChunk) :
  Js.or_empty (opt_chain (opt_chain (hd_error (chunk_choices chunk)) delta) delta_content)
  = chunkDelta chunk.
Proof.
  unfold chunkDelta.
  destruct (chunk_choices chunk) as [|c rest]; simpl; [reflexivity|].
  destruct (delta c) as [d|]; simpl; [|reflexivity].
  destruct (delta_content d) as [t|]; [apply or_empty_some | reflexivity].
Qed.

Lemma firstChoiceText_chain (response : ChatCompletion) :
  Js.or_empty (opt_chain (opt_chain (hd_error (choices response)) message) message_content)
  = firstChoiceText response.
Proof.
  unfold firstChoiceText.
  destruct (choices response) as [|c rest]; simpl; [reflexivity|].
  destruct (message c) as [m|]; simpl; [|reflexivity].
  destruct (message_content m) as [t|]; [apply or_empty_some | reflexivity].
Qed.

Lemma providerCounter_chain (response : ChatCompletion)
    (counter : CompletionUsage -> option Z) :
  Js.or_zero (opt_chain (usage response) counter) = providerCounter response counter.
Proof.
  unfold providerCounter.
  destruct (usage response) as [u|]; simpl; [|reflexivity].
  destruct (counter u) as [n|]; [apply or_zero_some | reflexivity].
Qed.

(** The if-chain on the finish signal realises the table. *)
Lemma finish_chain_table (signal : option string) :
  FinishTable signal
    (if strict_eq signal "stop" then STOP
     else if strict_eq signal "length" then MAX_TOKENS
     else if strict_eq signal "content_filter" then SAFETY
     else OTHER).
Proof.
  destruct (strict_eq signal "stop") eqn:E1.
  { apply strict_eq_true in E1. subst. constructor. }
  destruct (strict_eq signal "length") eqn:E2.
  { apply strict_eq_true in E2. subst. constructor. }
  destruct (strict_eq signal "content_filter") eqn:E3.
  { apply strict_eq_true in E3. subst. constructor. }
  apply strict_eq_false in E1, E2, E3. now constructor.
Qed.

(** The table is a function into four outcomes. *)
Lemma FinishTable_functional (signal : option string) (a b : FinishReason) :
  FinishTable signal a -> FinishTable signal b -> a = b.
Proof.
  intros Ha Hb. inversion Ha; subst; inversion Hb; subst; congruence.
Qed.

Lemma FinishTable_four (signal : option string) (a : FinishReason) :
  FinishTable signal a -> In a [STOP; MAX_TOKENS; SAFETY; OTHER].
Proof.
  intros H. inversion H; subst; simpl; auto.
Qed.

Lemma join_empty_app (xs ys : list string) :
  Js.join "" (xs ++ ys) = (Js.join "" xs ++ Js.join "" ys)%string.
Proof.
  induction xs as [|x xs IH].
  - reflexivity.
  - change ((x :: xs) ++ ys) with (x :: (xs ++ ys)).
    rewrite !join_empty_cons, IH, append_assoc. reflexivity.
Qed.

Lemma firstn_le_app {A : Type} (l : list A) (i j : nat) :
  i <= j -> exists rest, firstn j l = firstn i l ++ rest.
Proof.
  revert i j. induction l as [|x l IH]; intros i j Hij.
  - exists []. now rewrite !firstn_nil.
  - destruct i as [|i].
    + exists (firstn j (x :: l)). reflexivity.
    + destruct j as [|j]; [lia|].
      destruct (IH i j ltac:(lia)) as [rest E].
      exists rest. simpl. now rewrite E.
Qed.

(** ** The translator's loops *)

Lemma fold_pushTextPart (ps : list PartUnion) (acc : list string) :
  fold_left Rev2.pushTextPart ps acc = acc ++ segments ps.
Proof.
  revert acc. induction ps as [|p ps IH]; intros acc; simpl.
  - now rewrite app_nil_r.
  - rewrite IH. destruct p as [s|q]; simpl.
    + unfold Js.push. now rewrite <- app_assoc.
    + destruct (text q) as [t|]; [|reflexivity].
      destruct (Js.truthy t); [|reflexivity].
      unfold Js.push. now rewrite <- app_assoc.
Qed.

Lemma collectTextParts_segments (ps : list PartUnion) :
  Rev2.collectTextParts ps = segments ps.
Proof.
  unfold Rev2.collectTextParts. now rewrite fold_pushTextPart.
Qed.

Lemma providerRole_user (r : option string) :
  strict_eq r "user" = true -> providerRole r = Some user.
Proof.
  intros H. apply strict_eq_true in H. now subst.
Qed.

Lemma providerRole_model (r : option string) :
  strict_eq r "model" = true -> providerRole r = Some assistant.
Proof.
  intros H. apply strict_eq_true in H. now subst.
Qed.

Lemma providerRole_other (r : option string) :
  strict_eq r "user" = false -> strict_eq r "model" = false -> providerRole r = None.
Proof.
  destruct r as [s|]; simpl; [|reflexivity].
  now intros -> ->.
Qed.

Lemma pushContent_turnMessage (messages : list ChatCompletionMessageParam) (c : Content) :
  Rev2.pushContent messages c = messages ++ turnMessage c.
Proof.
  unfold Rev2.pushContent, turnMessage, turnTexts.
  destruct (parts c) as [ps|].
  - rewrite collectTextParts_segments.
    destruct (strict_eq (role c) "user") eqn:Eu.
    { rewrite (providerRole_user _ Eu).
      destruct (segments ps); simpl; [now rewrite app_nil_r | reflexivity]. }
    destruct (strict_eq (role c) "model") eqn:Em.
    { rewrite (providerRole_model _ Em).
      destruct (segments ps); simpl; [now rewrite app_nil_r | reflexivity]. }
    rewrite (providerRole_other _ Eu Em). now rewrite app_nil_r.
  - destruct (providerRole (role c)); now rewrite app_nil_r.
Qed.

Lemma fold_pushContent (cs : list Content) (messages : list ChatCompletionMessageParam) :
  fold_left Rev2.pushContent cs messages = messages ++ flat_map turnMessage cs.
Proof.
  revert messages. induction cs as [|c cs IH]; intros messages; simpl.
  - now rewrite app_nil_r.
  - now rewrite IH, pushContent_turnMessage, <- app_assoc.
Qed.

Lemma translateContents_turns (cs : list Content) :
  Rev2.translateContents cs = flat_map turnMessage cs.
Proof.
  unfold Rev2.translateContents. now rewrite fold_pushContent.
Qed.

(** The translator never emits a [system] message. *)
Lemma turnMessage_role (c : Content) (m : ChatCompletionMessageParam) :
  In m (turnMessage c) ->
  providerRole (role c) = Some (msg_role m)
  /\ turnTexts c <> []
  /\ msg_content m = Js.join Js.LF (turnTexts c).
Proof.
  unfold turnMessage.
  destruct (providerRole (role c)) as [r|]; [|contradiction].
  destruct (turnTexts c) as [|t ts]; [contradiction|].
  intros [<-|[]]. simpl. repeat split. discriminate.
Qed.

Lemma providerRole_not_system (r : option string) :
  providerRole r <> Some system.
Proof.
  destruct r as [s|]; simpl; [|discriminate].
  destruct (String.eqb s "user"); [discriminate|].
  destruct (String.eqb s "model"); discriminate.
Qed.

Lemma translateContents_no_system (cs : list Content) (m : ChatCompletionMessageParam) :
  In m (Rev2.translateContents cs) -> msg_role m <> system.
Proof.
  rewrite translateContents_turns, in_flat_map.
  intros (c & _ & Hm) E.
  apply turnMessage_role in Hm as (Hr & _ & _).
  rewrite E in Hr. exact (providerRole_not_system _ Hr).
Qed.

Lemma convertToOpenAIMessages_no_system (u : ContentListUnion)
    (m : ChatCompletionMessageParam) :
  In m (Rev2.convertToOpenAIMessages u) -> msg_role m <> system.
Proof.
  destruct u as [c|cs|p|ps]; simpl.
  - destruct (Rev2.hasRole c); apply translateContents_no_system.
  - destruct cs as [|c cs]; [apply translateContents_no_system|].
    destruct (Rev2.hasRole c); apply translateContents_no_system.
  - destruct p as [s|q]; [|apply translateContents_no_system].
    intros [<-|[]]. discriminate.
  - destruct ps as [|[s|q] ps]; try apply translateContents_no_system.
    intros [<-|[]]. discriminate.
Qed.

(** ** The stream loop *)

Lemma yieldChunk_text (acc : string) (chunk : ChatCompletionChunk) :
  fst (Rev2.yieldChunk acc chunk) = (acc ++ chunkDelta chunk)%string
  /\ candidateText (snd (Rev2.yieldChunk acc chunk)) = Some (acc ++ chunkDelta chunk)%string.
Proof.
  unfold Rev2.yieldChunk. rewrite chunkDelta_chain. split; reflexivity.
Qed.

Lemma yieldChunk_finish (acc : string) (chunk : ChatCompletionChunk) :
  exists reason,
    candidateFinish (snd (Rev2.yieldChunk acc chunk)) = Some reason
    /\ FinishTable (chunkSignal chunk) reason.
Proof.
  unfold Rev2.yieldChunk. rewrite chunkSignal_chain.
  eexists. split; [reflexivity | apply finish_chain_table].
Qed.

Lemma yieldChunk1_text (acc : string) (chunk : ChatCompletionChunk) :
  fst (Rev1.yieldChunk acc chunk) = (acc ++ chunkDelta chunk)%string
  /\ candidateText (snd (Rev1.yieldChunk acc chunk)) = Some (acc ++ chunkDelta chunk)%string.
Proof.
  unfold Rev1.yieldChunk. rewrite chunkDelta_chain. split; reflexivity.
Qed.

Lemma forAwait_cons (acc : string) (chunk : ChatCompletionChunk)
    (rest : list ChatCompletionChunk) :
  Rev2.forAwait acc (chunk :: rest)
  = snd (Rev2.yieldChunk acc chunk) :: Rev2.forAwait (fst (Rev2.yieldChunk acc chunk)) rest.
Proof.
  reflexivity.
Qed.

Lemma forAwait1_cons (acc : string) (chunk : ChatCompletionChunk)
    (rest : list ChatCompletionChunk) :
  Rev1.forAwait acc (chunk :: rest)
  = snd (Rev1.yieldChunk acc chunk) :: Rev1.forAwait (fst (Rev1.yieldChunk acc chunk)) rest.
Proof.
  reflexivity.
Qed.

Lemma forAwait_length (acc : string) (stream : list ChatCompletionChunk) :
  List.length (Rev2.forAwait acc stream) = List.length stream.
Proof.
  revert acc. induction stream as [|chunk rest IH]; intros acc.
  - reflexivity.
  - rewrite forAwait_cons. cbn [List.length]. now rewrite IH.
Qed.

Lemma forAwait_nth (stream : list ChatCompletionChunk) :
  forall (acc : string) (i : nat) (r : GenerateContentResponse),
    nth_error (Rev2.forAwait acc stream) i = Some r ->
    candidateText r
    = Some (acc ++ Js.join "" (firstn (S i) (map chunkDelta stream)))%string.
Proof.
  induction stream as [|chunk rest IH]; intros acc i r H.
  - destruct i; discriminate.
  - rewrite forAwait_cons in H.
    pose proof (yieldChunk_text acc chunk) as [Hacc Htext].
    destruct i as [|i]; cbn [nth_error] in H.
    + replace r with (snd (Rev2.yieldChunk acc chunk)) by congruence.
      rewrite Htext. reflexivity.
    + apply IH in H. rewrite H, Hacc.
      change (map chunkDelta (chunk :: rest)) with (chunkDelta chunk :: map chunkDelta rest).
      rewrite firstn_cons, join_empty_cons, append_assoc. reflexivity.
Qed.

Lemma forAwait1_nth (stream : list ChatCompletionChunk) :
  forall (acc : string) (i : nat) (r : GenerateContentResponse),
    nth_error (Rev1.forAwait acc stream) i = Some r ->
    candidateText r
    = Some (acc ++ Js.join "" (firstn (S i) (map chunkDelta stream)))%string.
Proof.
  induction stream as [|chunk rest IH]; intros acc i r H.
  - destruct i; discriminate.
  - rewrite forAwait1_cons in H.
    pose proof (yieldChunk1_text acc chunk) as [Hacc Htext].
    destruct i as [|i]; cbn [nth_error] in H.
    + replace r with (snd (Rev1.yieldChunk acc chunk)) by congruence.
      rewrite Htext. reflexivity.
    + apply IH in H. rewrite H, Hacc.
      change (map chunkDelta (chunk :: rest)) with (chunkDelta chunk :: map chunkDelta rest).
      rewrite firstn_cons, join_empty_cons, append_assoc. reflexivity.
Qed.

Lemma forAwait_finish (stream : list ChatCompletionChunk) (acc : string) :
  Forall2
    (fun chunk r =>
       exists reason,
         candidateFinish r = Some reason /\ FinishTable (chunkSignal chunk) reason)
    stream (Rev2.forAwait acc stream).
Proof.
  revert acc. induction stream as [|chunk rest IH]; intros acc.
  - constructor.
  - rewrite forAwait_cons.
    constructor; [apply yieldChunk_finish | apply IH].
Qed.

(** ** The properties of the specification *)

(** C1.  The Response Normalizer and the per-chunk mapping of the
    stream generator both map the provider's finish signal by the
    closed table: [stop] to [STOP], [length] to [MAX_TOKENS],
    [content_filter] to [SAFETY], anything else, absent included, to
    [OTHER].  Every signal has an outcome, the outcome is one of these
    four, and the mapping is a total function that raises nothing. *)
Theorem finish_reason_table_total :
  (forall response : ChatCompletion,
      exists reason,
        candidateFinish (Rev2.convertToGeminiResponse response) = Some reason
        /\ FinishTable (responseSignal response) reason
        /\ In reason [STOP; MAX_TOKENS; SAFETY; OTHER])
  /\ (forall (accumulatedText : string) (stream : list ChatCompletionChunk),
      Forall2
        (fun chunk r =>
           exists reason,
             candidateFinish r = Some reason
             /\ FinishTable (chunkSignal chunk) reason
             /\ In reason [STOP; MAX_TOKENS; SAFETY; OTHER])
        stream (Rev2.forAwait accumulatedText stream))
  /\ (forall client request stream,
        chat_completions_stream client (Rev2.streamGenerator_params request) = Ok stream ->
        Forall2
          (fun chunk r =>
             exists reason,
               candidateFinish r = Some reason
               /\ FinishTable (chunkSignal chunk) reason)
          (chunks stream) (yielded (Rev2.generateContentStream client request))).
Proof.
  split; [|split].
  - intros response.
    unfold Rev2.convertToGeminiResponse. rewrite responseSignal_chain.
    eexists. split; [reflexivity|].
    pose proof (finish_chain_table (responseSignal response)) as T.
    split; [exact T | exact (FinishTable_four _ _ T)].
  - intros acc stream.
    eapply Forall2_impl; [|apply forAwait_finish].
    intros chunk r (reason & Hr & T).
    exists reason. repeat split; trivial. exact (FinishTable_four _ _ T).
  - intros client request stream Hs.
    unfold Rev2.generateContentStream. rewrite Hs. apply forAwait_finish.
Qed.

(** C2.  When the transport delivers the chunks of a streaming call,
    the generator yields one response per chunk, and the i-th response
    carries the concatenation of the deltas of chunks 1 to i, the whole
    text so far and never a bare delta; hence every earlier text is a
    prefix of every later one.  The loop of the first listing yields
    the same texts. *)
Theorem stream_yields_accumulated_text
    (client : OpenAI) (request : GenerateContentParameters) (stream : Stream) :
  chat_completions_stream client (Rev2.streamGenerator_params request) = Ok stream ->
  let deltas := map chunkDelta (chunks stream) in
  let out := yielded (Rev2.generateContentStream client request) in
  List.length out = List.length deltas
  /\ (forall i r,
        nth_error out i = Some r ->
        candidateText r = Some (Js.join "" (firstn (S i) deltas)))
  /\ (forall i j ri rj,
        i <= j ->
        nth_error out i = Some ri ->
        nth_error out j = Some rj ->
        exists ti suffix,
          candidateText ri = Some ti
          /\ candidateText rj = Some (ti ++ suffix)%string)
  /\ (forall i r,
        nth_error (Rev1.forAwait "" (chunks stream)) i = Some r ->
        candidateText r = Some (Js.join "" (firstn (S i) deltas))).
Proof.
  intros Hs deltas out.
  assert (Hout : out = Rev2.forAwait "" (chunks stream)).
  { unfold out, Rev2.generateContentStream. now rewrite Hs. }
  rewrite Hout. repeat split.
  - unfold deltas. now rewrite forAwait_length, length_map.
  - intros i r H. now apply forAwait_nth in H.
  - intros i j ri rj Hij Hi Hj.
    apply forAwait_nth in Hi, Hj. simpl in Hi, Hj.
    destruct (firstn_le_app (map chunkDelta (chunks stream)) (S i) (S j) ltac:(lia))
      as [more E].
    exists (Js.join "" (firstn (S i) (map chunkDelta (chunks stream)))), (Js.join "" more).
    split; [exact Hi|].
    rewrite Hj. change (chunkDelta ?c :: firstn ?n ?l) with (firstn (S n) (c :: l)).
    now rewrite <- join_empty_app, <- E.
  - intros i r H. now apply forAwait1_nth in H.
Qed.

Lemma stream_yields_accumulated_text_witness :
  map candidateText (yielded (Rev2.generateContentStream scenarioClient scenarioRequest))
  = [Some "The"; Some "The answer"; Some "The answer is 4"]
  /\ forall i r,
       nth_error (yielded (Rev2.generateContentStream scenarioClient scenarioRequest)) i
       = Some r ->
       candidateText r
       = Some (Js.join "" (firstn (S i) ["The"; " answer"; " is 4"])).
Proof.
  split; [reflexivity|].
  exact (proj1 (proj2
    (stream_yields_accumulated_text scenarioClient scenarioRequest
       {| chunks := [ chunkOf "The" None;
                      chunkOf " answer" None;
                      chunkOf " is 4" (Some "stop") ];
          failure := None |}
       eq_refl))).
Defined.

(** ** The first listing's loop on the Turns it is typed for *)

Lemma filterText_typed (ps : list PartUnion) :
  forallb (fun p => match p with PObj _ => true | PStr _ => false end) ps = true ->
  Rev1.filterText ps = Ok (segments ps).
Proof.
  induction ps as [|p ps IH]; simpl; intros H.
  - reflexivity.
  - apply andb_prop in H as [Hp Hps]. destruct p as [s|q]; [discriminate|].
    rewrite (IH Hps). simpl.
    destruct (text q) as [t|]; [|reflexivity].
    destruct (Js.truthy t); reflexivity.
Qed.

Lemma textPartsOf_typed (c : Content) :
  typedTurn c = true -> Rev1.textPartsOf c = Ok (turnTexts c).
Proof.
  unfold typedTurn, Rev1.textPartsOf, turnTexts.
  destruct (parts c) as [ps|]; [apply filterText_typed | discriminate].
Qed.

Lemma pushContent1_turnMessage (messages : list ChatCompletionMessageParam) (c : Content) :
  typedTurn c = true ->
  Rev1.pushContent messages c = Ok (messages ++ turnMessage c).
Proof.
  intros Ht. unfold Rev1.pushContent, turnMessage.
  rewrite (textPartsOf_typed c Ht).
  destruct (strict_eq (role c) "user") eqn:Eu.
  { rewrite (providerRole_user _ Eu). simpl.
    destruct (turnTexts c); simpl; [now rewrite app_nil_r | reflexivity]. }
  destruct (strict_eq (role c) "model") eqn:Em.
  { rewrite (providerRole_model _ Em). simpl.
    destruct (turnTexts c); simpl; [now rewrite app_nil_r | reflexivity]. }
  rewrite (providerRole_other _ Eu Em). now rewrite app_nil_r.
Qed.

Lemma forOf_turns (cs : list Content) (messages : list ChatCompletionMessageParam) :
  forallb typedTurn cs = true ->
  Rev1.forOf messages cs = Ok (messages ++ flat_map turnMessage cs).
Proof.
  revert messages. induction cs as [|c cs IH]; intros messages H.
  - simpl. now rewrite app_nil_r.
  - simpl in H. apply andb_prop in H as [Hc Hcs].
    cbn [Rev1.forOf flat_map]. rewrite (pushContent1_turnMessage _ _ Hc).
    cbn [bind]. rewrite (IH _ Hcs). now rewrite <- app_assoc.
Qed.

Lemma convertToOpenAIMessages_turns (cs : list Content) :
  startsWithTurn cs = true ->
  Rev2.convertToOpenAIMessages (ManyContents cs) = flat_map turnMessage cs.
Proof.
  destruct cs as [|c cs]; simpl.
  - reflexivity.
  - intros ->. apply translateContents_turns.
Qed.

(** C3.  For a conversation given as an array of Turns, the Message
    Translator emits, Turn by Turn and in order, one [user] message for
    a Turn of role [user] and one [assistant] message for a Turn of role
    [model], whose content is the newline-join of the Turn's text parts;
    a Turn with no text-bearing part yields no message and no error; so
    every emitted message comes from a Turn with at least one text part.
    The same holds for a single Turn, and for the first listing on the
    Turns it is typed for. *)
Theorem translator_one_message_per_turn (cs : list Content) :
  startsWithTurn cs = true ->
  Rev2.convertToOpenAIMessages (ManyContents cs) = flat_map turnMessage cs
  /\ (forall c,
        role c = Some "user" -> turnTexts c <> [] ->
        Rev2.convertToOpenAIMessages (OneContent c)
        = [ {| msg_role := user; msg_content := Js.join Js.LF (turnTexts c) |} ]
        /\ turnMessage c = Rev2.convertToOpenAIMessages (OneContent c))
  /\ (forall c,
        role c = Some "model" -> turnTexts c <> [] ->
        Rev2.convertToOpenAIMessages (OneContent c)
        = [ {| msg_role := assistant; msg_content := Js.join Js.LF (turnTexts c) |} ]
        /\ turnMessage c = Rev2.convertToOpenAIMessages (OneContent c))
  /\ (forall c,
        turnTexts c = [] ->
        Rev2.convertToOpenAIMessages (OneContent c) = [] /\ turnMessage c = [])
  /\ (forall m,
        In m (Rev2.convertToOpenAIMessages (ManyContents cs)) ->
        exists c,
          In c cs
          /\ turnTexts c <> []
          /\ providerRole (role c) = Some (msg_role m)
          /\ msg_content m = Js.join Js.LF (turnTexts c))
  /\ (forallb typedTurn cs = true ->
      Rev1.convertToOpenAIMessages cs = Ok (flat_map turnMessage cs)).
Proof.
  intros Hcs.
  assert (one : forall c, Rev2.hasRole c = true ->
                Rev2.convertToOpenAIMessages (OneContent c) = turnMessage c).
  { intros c Hc. simpl. rewrite Hc, translateContents_turns. simpl.
    now rewrite app_nil_r. }
  split; [now apply convertToOpenAIMessages_turns|].
  split; [|split; [|split; [|split]]].
  - intros c Hr Ht. rewrite one by (unfold Rev2.hasRole; now rewrite Hr).
    split; [|reflexivity].
    unfold turnMessage. rewrite Hr. simpl.
    destruct (turnTexts c); [contradiction | reflexivity].
  - intros c Hr Ht. rewrite one by (unfold Rev2.hasRole; now rewrite Hr).
    split; [|reflexivity].
    unfold turnMessage. rewrite Hr. simpl.
    destruct (turnTexts c); [contradiction | reflexivity].
  - intros c Ht.
    assert (Hm : turnMessage c = []).
    { unfold turnMessage. rewrite Ht. now destruct (providerRole (role c)). }
    split; [|exact Hm].
    destruct (Rev2.hasRole c) eqn:Hc; [now rewrite one|].
    simpl. rewrite Hc. reflexivity.
  - intros m. rewrite (convertToOpenAIMessages_turns cs Hcs), in_flat_map.
    intros (c & Hin & Hm). exists c.
    apply turnMessage_role in Hm as (Hr & Ht & Hc). auto.
  - intros Ht. unfold Rev1.convertToOpenAIMessages. now rewrite forOf_turns.
Qed.

Lemma translator_one_message_per_turn_witness :
  Rev2.convertToOpenAIMessages (ManyContents scenarioDialogue)
  = [ {| msg_role := user;
         msg_content := Js.join Js.LF ["What is"; "2 + 2?"] |};
      {| msg_role := assistant; msg_content := "4" |} ].
Proof.
  exact (eq_trans
           (proj1 (translator_one_message_per_turn scenarioDialogue eq_refl))
           eq_refl).
Defined.

(** ** The system instruction *)

Lemma systemTextOf_effective (si : ContentUnion) :
  Rev2.systemTextOf si = effectiveSystemText si.
Proof.
  unfold effectiveSystemText.
  destruct si as [c|ps|[s|q]]; simpl.
  - destruct (parts c) as [ps|]; [now rewrite collectTextParts_segments | reflexivity].
  - now rewrite collectTextParts_segments.
  - reflexivity.
  - destruct (text q) as [t|]; [|reflexivity].
    destruct t; reflexivity.
Qed.

Lemma falsy_instruction_empty (si : ContentUnion) :
  Rev2.truthyInstruction si = false -> effectiveSystemText si = "".
Proof.
  destruct si as [c|ps|[s|q]]; simpl; try discriminate.
  intros H. apply truthy_false_iff in H. now subst.
Qed.

Lemma addSystemInstruction_spec (request : GenerateContentParameters)
    (messages : list ChatCompletionMessageParam) :
  Rev2.addSystemInstruction request messages
  = systemMessages (opt_chain (config request) systemInstruction) ++ messages.
Proof.
  unfold Rev2.addSystemInstruction, systemMessages.
  destruct (opt_chain (config request) systemInstruction) as [si|]; [|reflexivity].
  rewrite systemTextOf_effective.
  destruct (Rev2.truthyInstruction si) eqn:T.
  - destruct (Js.truthy (effectiveSystemText si)); reflexivity.
  - now rewrite (falsy_instruction_empty si T).
Qed.

(** C4.  The resolver computes, for every encoding of
    [systemInstruction], the newline-join of its text-bearing elements;
    so a plain string, a single Part, a one-element list of Parts and a
    Turn with that one Part, all denoting the text [t], resolve to [t],
    and a list of Parts resolves as the Turn with those parts does.
    [generateContent] and [generateContentStream] both send the
    translated conversation, which holds no [system] message, preceded
    by exactly one [system] message carrying the resolved text when it
    is non-empty, and by nothing when it is empty or when there is no
    instruction. *)
Theorem system_instruction_first (request : GenerateContentParameters) :
  let instruction := opt_chain (config request) systemInstruction in
  let translated := Rev2.convertToOpenAIMessages (contents request) in
  (forall si, Rev2.systemTextOf si = effectiveSystemText si)
  /\ (forall t r,
        Rev2.systemTextOf (SIPart (PStr t)) = t
        /\ Rev2.systemTextOf (SIPart (PObj (textPart t))) = t
        /\ Rev2.systemTextOf (SIParts [PObj (textPart t)]) = t
        /\ Rev2.systemTextOf
             (SIContent {| role := r; parts := Some [PObj (textPart t)] |}) = t)
  /\ (forall ps r,
        Rev2.systemTextOf (SIParts ps)
        = Rev2.systemTextOf (SIContent {| role := r; parts := Some ps |}))
  /\ p_messages (Rev2.generateContent_params request)
     = systemMessages instruction ++ translated
  /\ p_messages (Rev2.streamGenerator_params request)
     = systemMessages instruction ++ translated
  /\ (forall m, In m translated -> msg_role m <> system)
  /\ (forall client,
        Rev2.generateContent client request
        = bind (chat_completions_create client (Rev2.generateContent_params request))
            (fun response => Ok (Rev2.convertToGeminiResponse response)))
  /\ (forall client stream,
        chat_completions_stream client (Rev2.streamGenerator_params request) = Ok stream ->
        Rev2.generateContentStream client request
        = {| yielded := Rev2.forAwait "" (chunks stream); thrown := failure stream |}).
Proof.
  intros instruction translated.
  split; [exact systemTextOf_effective|].
  split.
  { intros t r. repeat split; try reflexivity; simpl; unfold Rev2.collectTextParts;
      simpl; destruct t; reflexivity. }
  split; [reflexivity|].
  split; [apply addSystemInstruction_spec|].
  split; [apply addSystemInstruction_spec|].
  split; [intros m; apply convertToOpenAIMessages_no_system|].
  split; [reflexivity|].
  intros client stream Hs. unfold Rev2.generateContentStream. now rewrite Hs.
Qed.

(** C5.  The Response Normalizer returns exactly one candidate, at
    index 0, of role [model], with exactly one text part, whose text is
    the content of the first provider choice; further choices are not
    read, and when there is no first choice, or it has no message or no
    content, the text is the empty string.  The first listing returns
    the same candidate text. *)
Theorem normalizer_single_candidate (response : ChatCompletion) :
  (exists reason,
      candidates (Rev2.convertToGeminiResponse response)
      = Some [ {| content := {| role := Some "model";
                                parts := Some [PObj (textPart (firstChoiceText response))] |};
                  finishReason := Some reason;
                  index := Some 0%Z |} ])
  /\ (forall first rest rest' u,
        Rev2.convertToGeminiResponse {| choices := first :: rest; usage := u |}
        = Rev2.convertToGeminiResponse {| choices := first :: rest'; usage := u |})
  /\ (forall u signal,
        candidateText (Rev2.convertToGeminiResponse {| choices := []; usage := u |})
        = Some ""
        /\ candidateText
             (Rev2.convertToGeminiResponse
                {| choices := [ {| message := None; finish_reason := signal |} ];
                   usage := u |})
           = Some ""
        /\ candidateText
             (Rev2.convertToGeminiResponse
                {| choices := [ {| message := Some {| message_content := None |};
                                   finish_reason := signal |} ];
                   usage := u |})
           = Some "")
  /\ (exists reason,
        candidates (Rev1.convertToGeminiResponse response)
        = Some [ {| content := {| role := Some "model";
                                  parts := Some [PObj (textPart (firstChoiceText response))] |};
                    finishReason := Some reason;
                    index := Some 0%Z |} ]).
Proof.
  split; [|split; [|split]].
  - unfold Rev2.convertToGeminiResponse. rewrite firstChoiceText_chain.
    eexists. reflexivity.
  - reflexivity.
  - intros u signal. repeat split.
  - unfold Rev1.convertToGeminiResponse. rewrite firstChoiceText_chain.
    eexists. reflexivity.
Qed.

(** C6.  The response of the Normalizer always carries the usage
    record with its three counters present; each equals the provider's
    counter when the provider gives it and 0 when the counter, or the
    whole usage record, is missing.  The first listing does the same. *)
Theorem normalizer_usage_counters (response : ChatCompletion) :
  usageMetadata (Rev2.convertToGeminiResponse response)
  = Some {| promptTokenCount := Some (providerCounter response prompt_tokens);
            candidatesTokenCount := Some (providerCounter response completion_tokens);
            totalTokenCount := Some (providerCounter response total_tokens) |}
  /\ usageMetadata (Rev1.convertToGeminiResponse response)
     = usageMetadata (Rev2.convertToGeminiResponse response).
Proof.
  unfold Rev2.convertToGeminiResponse, Rev1.convertToGeminiResponse.
  cbn [usageMetadata]. rewrite !providerCounter_chain. split; reflexivity.
Qed.

(** C7.  [countTokens] never fails; it returns [ceil(L / 4)], where [L]
    is the sum of the lengths of the translated message bodies, that is
    the length of their concatenation without separator: the least
    integer [n] with [L <= 4 n].  For [L = 40] it returns 10. *)
Theorem countTokens_ceiling (request : CountTokensParameters) :
  let bodies := map msg_content (Rev2.convertToOpenAIMessages (ct_contents request)) in
  let L := list_sum (map String.length bodies) in
  exists n : Z,
    Rev2.countTokens request = Ok {| totalTokens := Some n |}
    /\ n = Qceiling (Z.of_nat L # 4)
    /\ (4 * (n - 1) < Z.of_nat L <= 4 * n)%Z
    /\ (L = 40 -> n = 10%Z).
Proof.
  intros bodies L.
  exists (Js.ceil_div L 4).
  split.
  { unfold Rev2.countTokens. fold bodies. now rewrite join_empty_length. }
  split; [reflexivity|].
  pose proof (ceil_div_bounds L 4) as B.
  split; [exact B | lia].
Qed.

(** ** The input shapes *)

Lemma toString_strings (ss : list string) : map toString (map PStr ss) = ss.
Proof.
  induction ss as [|s ss IH]; simpl; [reflexivity | now rewrite IH].
Qed.

(** C8, as the specification states it, fails on the empty array: it
    is an array of plain strings, and the translator emits no message
    for it. *)
Lemma empty_string_array_no_message :
  Rev2.convertToOpenAIMessages (ManyParts (map PStr [])) = []
  /\ ~ (exists m, Rev2.convertToOpenAIMessages (ManyParts (map PStr [])) = [m]).
Proof.
  split; [reflexivity|].
  intros [m H]. discriminate H.
Qed.

(** C8, amended.  A bare string [s] becomes exactly one message, of
    role [user] and content [s], and without a system instruction that
    is the whole message list; a non-empty array of plain strings
    becomes a single [user] message, their newline-join; a bare Part,
    and an array that is empty or starts with a Part, is translated as
    the one [user] Turn that has these parts. *)
Theorem translator_input_shapes :
  (forall s,
      Rev2.convertToOpenAIMessages (OnePart (PStr s))
      = [ {| msg_role := user; msg_content := s |} ])
  /\ (forall m s cfg,
        opt_chain cfg systemInstruction = None ->
        p_messages
          (Rev2.generateContent_params
             {| model := m; contents := OnePart (PStr s); config := cfg |})
        = [ {| msg_role := user; msg_content := s |} ])
  /\ (forall s ss,
        Rev2.convertToOpenAIMessages (ManyParts (map PStr (s :: ss)))
        = [ {| msg_role := user; msg_content := Js.join Js.LF (s :: ss) |} ])
  /\ (forall p,
        Rev2.convertToOpenAIMessages (OnePart (PObj p))
        = Rev2.convertToOpenAIMessages
            (OneContent {| role := Some "user"; parts := Some [PObj p] |}))
  /\ (forall p ps,
        Rev2.convertToOpenAIMessages (ManyParts (PObj p :: ps))
        = Rev2.convertToOpenAIMessages
            (OneContent {| role := Some "user"; parts := Some (PObj p :: ps) |}))
  /\ Rev2.convertToOpenAIMessages (ManyParts [])
     = Rev2.convertToOpenAIMessages
         (OneContent {| role := Some "user"; parts := Some [] |}).
Proof.
  split; [reflexivity|].
  split.
  { intros m s cfg Hc. unfold Rev2.generateContent_params. cbn [p_messages].
    rewrite addSystemInstruction_spec. cbn [config]. now rewrite Hc. }
  split.
  { intros s ss. cbn [map Rev2.convertToOpenAIMessages].
    change (PStr s :: map PStr ss) with (map PStr (s :: ss)).
    now rewrite toString_strings. }
  repeat split.
Qed.

(** ** The embedding adapter *)

(** C9.  Whatever the request's content, when the provider answers the
    embedding call with at least one vector, [embedContent] returns a
    result whose [embeddings] is a list of exactly one element, whose
    [values] are the first vector the provider returned.  The call it
    makes is one call, on the fixed model, with the newline-join of the
    translated message bodies as input. *)
Theorem embedContent_single_vector
    (client : OpenAI) (request : EmbedContentParameters)
    (response : CreateEmbeddingResponse) (first : Embedding) (others : list Embedding) :
  embeddings_create client (Rev2.embedContent_params request) = Ok response ->
  data response = first :: others ->
  Rev2.embedContent client request
  = Ok {| embeddings := Some [ {| values := Some (embedding first) |} ] |}
  /\ e_model (Rev2.embedContent_params request) = "text-embedding-3-small"
  /\ e_input (Rev2.embedContent_params request)
     = Js.join Js.LF
         (map msg_content (Rev2.convertToOpenAIMessages (ec_contents request))).
Proof.
  intros Hcall Hdata.
  unfold Rev2.embedContent. rewrite Hcall. cbn [bind]. rewrite Hdata.
  repeat split.
Qed.

Lemma embedContent_single_vector_witness :
  Rev2.embedContent scenarioClient scenarioEmbedding
  = Ok {| embeddings := Some [ {| values := Some [quarter; half] |} ] |}.
Proof.
  exact (proj1
           (embedContent_single_vector scenarioClient scenarioEmbedding
              {| data := [ {| embedding := [quarter; half] |} ] |}
              {| embedding := [quarter; half] |} []
              eq_refl eq_refl)).
Defined.

(** The first listing returns the vector as the single [embedding] of
    its result. *)
Lemma embedContent1_single_vector
    (client : OpenAI) (request : Rev1.EmbedContentParameters) (t : string)
    (response : CreateEmbeddingResponse) (first : Embedding) (others : list Embedding) :
  Rev1.embedContent_text request = Ok t ->
  embeddings_create client {| e_model := "text-embedding-3-small"; e_input := t |}
  = Ok response ->
  data response = first :: others ->
  Rev1.embedContent client request
  = Ok {| Rev1.ec_embedding := {| values := Some (embedding first) |} |}.
Proof.
  intros Ht Hcall Hdata.
  unfold Rev1.embedContent. rewrite Ht. cbn [bind]. rewrite Hcall. cbn [bind].
  now rewrite Hdata.
Qed.

(** ** Parts with an empty text *)

Lemma segments_app (ps qs : list PartUnion) :
  segments (ps ++ qs) = segments ps ++ segments qs.
Proof.
  induction ps as [|p ps IH]; simpl; [reflexivity|].
  destruct (textBearing p); simpl; now rewrite IH.
Qed.

Lemma segments_skip_empty (payload : option string) (ps qs : list PartUnion) :
  segments (ps ++ emptyTextPart payload :: qs) = segments (ps ++ qs).
Proof.
  now rewrite !segments_app.
Qed.

Lemma segments_all_empty (payloads : list (option string)) :
  segments (map emptyTextPart payloads) = [].
Proof.
  induction payloads as [|d ds IH]; simpl; [reflexivity | exact IH].
Qed.

Lemma turnMessage_skip_empty (payload : option string) (r : option string)
    (ps qs : list PartUnion) :
  turnMessage {| role := r; parts := Some (ps ++ emptyTextPart payload :: qs) |}
  = turnMessage {| role := r; parts := Some (ps ++ qs) |}.
Proof.
  unfold turnMessage, turnTexts. cbn [role parts].
  now rewrite segments_skip_empty.
Qed.

Lemma translateContents_skip_empty (payload : option string) (r : option string)
    (ps qs : list PartUnion) (before after : list Content) :
  Rev2.translateContents
    (before ++ {| role := r; parts := Some (ps ++ emptyTextPart payload :: qs) |} :: after)
  = Rev2.translateContents
      (before ++ {| role := r; parts := Some (ps ++ qs) |} :: after).
Proof.
  rewrite !translateContents_turns, !flat_map_app. cbn [flat_map].
  now rewrite turnMessage_skip_empty.
Qed.

Lemma contentAsPart_blind (before after : list Content) (c c' : Content) :
  map contentAsPart (before ++ c :: after) = map contentAsPart (before ++ c' :: after).
Proof.
  now rewrite !map_app.
Qed.

Lemma convertToOpenAIMessages_skip_empty (payload : option string) (r : option string)
    (ps qs : list PartUnion) (before after : list Content) :
  Rev2.convertToOpenAIMessages
    (ManyContents
       (before ++ {| role := r; parts := Some (ps ++ emptyTextPart payload :: qs) |} :: after))
  = Rev2.convertToOpenAIMessages
      (ManyContents (before ++ {| role := r; parts := Some (ps ++ qs) |} :: after)).
Proof.
  destruct before as [|b before].
  - cbn [app Rev2.convertToOpenAIMessages]. unfold Rev2.hasRole. cbn [role].
    destruct r as [s|]; [|reflexivity].
    apply (translateContents_skip_empty payload (Some s) ps qs [] after).
  - cbn [app Rev2.convertToOpenAIMessages].
    destruct (Rev2.hasRole b).
    + apply (translateContents_skip_empty payload r ps qs (b :: before) after).
    + change (b :: before ++ ?c :: after) with ((b :: before) ++ c :: after).
      now rewrite (contentAsPart_blind (b :: before) after
                     {| role := r; parts := Some (ps ++ emptyTextPart payload :: qs) |}
                     {| role := r; parts := Some (ps ++ qs) |}).
Qed.

(** An array that does not start with a string is wrapped into one
    [user] Turn. *)
Lemma manyParts_objects (ps : list PartUnion) :
  match ps with PStr _ :: _ => false | _ => true end = true ->
  Rev2.convertToOpenAIMessages (ManyParts ps)
  = Rev2.translateContents [ {| role := Some "user"; parts := Some ps |} ].
Proof.
  destruct ps as [|[s|q] ps]; [reflexivity | discriminate | reflexivity].
Qed.

Lemma filterText_skip_empty (payload : option string) (ps qs : list PartUnion) :
  Rev1.filterText (ps ++ emptyTextPart payload :: qs) = Rev1.filterText (ps ++ qs).
Proof.
  induction ps as [|p ps IH]; simpl.
  - destruct (Rev1.filterText qs); reflexivity.
  - destruct p as [s|q]; [reflexivity | now rewrite IH].
Qed.

(** C10.  A part whose [text] is the empty string counts for nothing:
    the translator gathers the same segments, and emits the same
    messages, as if the part were not there, and a Turn whose parts all
    have an empty text yields no message, as does such a part given
    alone, and an array of part objects is translated the same with or
    without it; the [systemInstruction]
    resolver gives the empty text, hence no system message, for such a
    part alone, and the same text with or without it in a list of Parts
    or in a Turn; and the text sent for embedding is the same with or
    without it, in both listings. *)
Theorem empty_text_part_is_absent (payload : option string) :
  let e := emptyTextPart payload in
  (forall ps qs,
      Rev2.collectTextParts (ps ++ e :: qs) = Rev2.collectTextParts (ps ++ qs))
  /\ (forall before after r ps qs,
        Rev2.convertToOpenAIMessages
          (ManyContents (before ++ {| role := r; parts := Some (ps ++ e :: qs) |} :: after))
        = Rev2.convertToOpenAIMessages
            (ManyContents (before ++ {| role := r; parts := Some (ps ++ qs) |} :: after)))
  /\ (forall r ps qs,
        Rev2.convertToOpenAIMessages
          (OneContent {| role := r; parts := Some (ps ++ e :: qs) |})
        = Rev2.convertToOpenAIMessages
            (OneContent {| role := r; parts := Some (ps ++ qs) |}))
  /\ (forall ps qs : list Part,
        Rev2.convertToOpenAIMessages (ManyParts (map PObj ps ++ e :: map PObj qs))
        = Rev2.convertToOpenAIMessages (ManyParts (map PObj ps ++ map PObj qs))
        /\ Rev2.convertToOpenAIMessages (OnePart e) = [])
  /\ (forall r payloads before after,
        Rev2.convertToOpenAIMessages
          (OneContent {| role := r; parts := Some (map emptyTextPart payloads) |}) = []
        /\ Rev2.translateContents
             (before ++ {| role := r; parts := Some (map emptyTextPart payloads) |} :: after)
           = Rev2.translateContents (before ++ after))
  /\ (forall request messages,
        opt_chain (config request) systemInstruction = Some (SIPart e) ->
        Rev2.systemTextOf (SIPart e) = ""
        /\ Rev2.addSystemInstruction request messages = messages)
  /\ (forall ps qs,
        Rev2.systemTextOf (SIParts (ps ++ e :: qs)) = Rev2.systemTextOf (SIParts (ps ++ qs)))
  /\ (forall r ps qs,
        Rev2.systemTextOf (SIContent {| role := r; parts := Some (ps ++ e :: qs) |})
        = Rev2.systemTextOf (SIContent {| role := r; parts := Some (ps ++ qs) |}))
  /\ (forall m before after r ps qs,
        Rev2.embedContent_params
          {| ec_model := m;
             ec_contents :=
               ManyContents
                 (before ++ {| role := r; parts := Some (ps ++ e :: qs) |} :: after) |}
        = Rev2.embedContent_params
            {| ec_model := m;
               ec_contents :=
                 ManyContents
                   (before ++ {| role := r; parts := Some (ps ++ qs) |} :: after) |})
  /\ (forall r ps qs,
        Rev1.embedContent_text
          {| Rev1.ec_content := {| role := r; parts := Some (ps ++ e :: qs) |} |}
        = Rev1.embedContent_text
            {| Rev1.ec_content := {| role := r; parts := Some (ps ++ qs) |} |}).
Proof.
  intros e. unfold e.
  split.
  { intros ps qs. rewrite !collectTextParts_segments. apply segments_skip_empty. }
  split.
  { intros before after r ps qs. apply convertToOpenAIMessages_skip_empty. }
  split.
  { intros r ps qs.
    cbn [Rev2.convertToOpenAIMessages]. unfold Rev2.hasRole. cbn [role].
    destruct r as [s|]; [|reflexivity].
    apply (translateContents_skip_empty payload (Some s) ps qs [] []). }
  split.
  { intros ps qs. split; [|reflexivity].
    rewrite (manyParts_objects (map PObj ps ++ map PObj qs)).
    - rewrite (manyParts_objects (map PObj ps ++ emptyTextPart payload :: map PObj qs)).
      + apply (translateContents_skip_empty payload (Some "user") _ _ [] []).
      + destruct ps; reflexivity.
    - destruct ps; [destruct qs|]; reflexivity. }
  split.
  { intros r payloads before after.
    assert (Hm : turnMessage {| role := r; parts := Some (map emptyTextPart payloads) |} = []).
    { unfold turnMessage, turnTexts. cbn [role parts].
      rewrite segments_all_empty. now destruct (providerRole r). }
    split.
    - cbn [Rev2.convertToOpenAIMessages]. unfold Rev2.hasRole. cbn [role].
      destruct r as [s|]; [|reflexivity].
      rewrite translateContents_turns. cbn [flat_map]. now rewrite Hm.
    - rewrite !translateContents_turns, !flat_map_app. cbn [flat_map].
      now rewrite Hm. }
  split.
  { intros request messages Hsi. split; [reflexivity|].
    unfold Rev2.addSystemInstruction. now rewrite Hsi. }
  split.
  { intros ps qs. rewrite !systemTextOf_effective. unfold effectiveSystemText.
    cbn [instructionParts]. now rewrite segments_skip_empty. }
  split.
  { intros r ps qs. rewrite !systemTextOf_effective. unfold effectiveSystemText.
    cbn [instructionParts parts]. now rewrite segments_skip_empty. }
  split.
  { intros m before after r ps qs. unfold Rev2.embedContent_params. cbn [ec_contents].
    now rewrite convertToOpenAIMessages_skip_empty. }
  intros r ps qs. unfold Rev1.embedContent_text, Rev1.textPartsOf.
  cbn [Rev1.ec_content parts]. now rewrite filterText_skip_empty.
Qed.

(** ** The specification's scenarios, evaluated *)

(** Scenario 1: one [user] Turn and a system instruction, answered with
    ["Hi"] and [stop], usage omitted. *)
Example scenario1_messages :
  p_messages (Rev2.generateContent_params scenarioRequest)
  = [ {| msg_role := system; msg_content := "Be terse" |};
      {| msg_role := user; msg_content := "Hello" |} ].
Proof. reflexivity. Qed.

Example scenario1_response :
  Rev2.generateContent scenarioClient scenarioRequest
  = Ok (oneCandidate "Hi" STOP
          {| promptTokenCount := Some 0%Z;
             candidatesTokenCount := Some 0%Z;
             totalTokenCount := Some 0%Z |}).
Proof. reflexivity. Qed.

(** Scenario 2: a conversation given as a bare string. *)
Example scenario2_bare_string :
  p_messages
    (Rev2.generateContent_params
       {| model := "gpt-4o";
          contents := OnePart (PStr "Explain recursion");
          config := None |})
  = [ {| msg_role := user; msg_content := "Explain recursion" |} ].
Proof. reflexivity. Qed.

(** Scenario 3: the last of the three streamed responses carries
    [STOP], the earlier ones [OTHER]. *)
Example scenario3_finish :
  map candidateFinish (yielded (Rev2.generateContentStream scenarioClient scenarioRequest))
  = [Some OTHER; Some OTHER; Some STOP]
  /\ thrown (Rev2.generateContentStream scenarioClient scenarioRequest) = None.
Proof. split; reflexivity. Qed.

Example accumulator_hi_there :
  map candidateText (Rev2.forAwait "" [chunkOf "Hi" None; chunkOf " there" None])
  = [Some "Hi"; Some "Hi there"].
Proof. reflexivity. Qed.

(** Forty characters are estimated at ten tokens, forty-one at
    eleven. *)
Example forty_characters :
  Rev2.countTokens
    {| ct_model := "gpt-4o";
       ct_contents :=
         ManyContents
           [ {| role := Some "user";
                parts := Some [PObj (textPart "0123456789012345678")] |};
             {| role := Some "model";
                parts := Some [PObj (textPart "abcdefghij");
                               PObj (textPart "ABCDEFGHIJ")] |} ] |}
  = Ok {| totalTokens := Some 10%Z |}
  /\ Rev2.countTokens
       {| ct_model := "gpt-4o";
          ct_contents := OnePart (PStr "01234567890123456789012345678901234567890") |}
     = Ok {| totalTokens := Some 11%Z |}.
Proof. split; reflexivity. Qed.

(** An array that starts with a string is joined as a whole, part
    objects included. *)
Example mixed_array_joined :
  Rev2.convertToOpenAIMessages (ManyParts [PStr "a"; PObj (textPart "b")])
  = [ {| msg_role := user;
         msg_content := Js.join Js.LF ["a"; "[object Object]"] |} ].
Proof. reflexivity. Qed.

(** An array whose first element has no [role] is read as an array of
    Parts, none of which has a [text]. *)
Example roleless_head :
  Rev2.convertToOpenAIMessages
    (ManyContents
       [ {| role := None; parts := Some [PObj (textPart "x")] |};
         {| role := Some "user"; parts := Some [PObj (textPart "hi")] |} ])
  = [].
Proof. reflexivity. Qed.

(** The first listing knows [stop] only. *)
Example first_listing_length :
  candidateFinish
    (Rev1.convertToGeminiResponse
       {| choices := [ {| message := None; finish_reason := Some "length" |} ];
          usage := None |})
  = Some OTHER.
Proof. reflexivity. Qed.

(** A message of the first listing's translator on a bare string part. *)
Example first_listing_string_part :
  Rev1.convertToOpenAIMessages
    [ {| role := Some "user"; parts := Some [PStr "hi"] |} ]
  = Throw (TypeError "Cannot use 'in' operator to search for 'text' in a string").
Proof. reflexivity. Qed.

(** ** Further properties of the translator *)

Lemma startsWithTurn_app (a b : list Content) :
  startsWithTurn a = true -> startsWithTurn b = true -> startsWithTurn (a ++ b) = true.
Proof.
  destruct a as [|c a]; simpl; auto.
Qed.

Lemma isDialogueTurn_hasRole (c : Content) :
  isDialogueTurn c = true -> Rev2.hasRole c = true.
Proof.
  unfold isDialogueTurn, Rev2.hasRole, providerRole.
  destruct (role c); [reflexivity | discriminate].
Qed.

Lemma startsWithTurn_filter (cs : list Content) :
  startsWithTurn (filter isDialogueTurn cs) = true.
Proof.
  induction cs as [|c cs IH]; simpl; [reflexivity|].
  destruct (isDialogueTurn c) eqn:E; [|exact IH].
  simpl. now apply isDialogueTurn_hasRole.
Qed.

Lemma turnMessage_other_role (c : Content) :
  isDialogueTurn c = false -> turnMessage c = [].
Proof.
  unfold isDialogueTurn, turnMessage.
  destruct (providerRole (role c)); [discriminate | reflexivity].
Qed.

Lemma turnMessage_length (c : Content) : List.length (turnMessage c) <= 1.
Proof.
  unfold turnMessage.
  destruct (providerRole (role c)); [|simpl; lia].
  destruct (turnTexts c); simpl; lia.
Qed.

Lemma flat_map_turnMessage_filter (cs : list Content) :
  flat_map turnMessage (filter isDialogueTurn cs) = flat_map turnMessage cs.
Proof.
  induction cs as [|c cs IH]; simpl; [reflexivity|].
  destruct (isDialogueTurn c) eqn:E; simpl.
  - now rewrite IH.
  - now rewrite (turnMessage_other_role c E).
Qed.

Lemma flat_map_turnMessage_length (cs : list Content) :
  List.length (flat_map turnMessage (filter isDialogueTurn cs))
  <= List.length (filter isDialogueTurn cs).
Proof.
  induction (filter isDialogueTurn cs) as [|c l IH]; simpl; [lia|].
  rewrite length_app. pose proof (turnMessage_length c). lia.
Qed.

(** X1.  Translation goes Turn by Turn: the messages of two arrays of
    Turns put end to end are the messages of the first followed by the
    messages of the second. *)
Theorem translator_concatenation (a b : list Content) :
  startsWithTurn a = true ->
  startsWithTurn b = true ->
  Rev2.convertToOpenAIMessages (ManyContents (a ++ b))
  = Rev2.convertToOpenAIMessages (ManyContents a)
    ++ Rev2.convertToOpenAIMessages (ManyContents b).
Proof.
  intros Ha Hb.
  rewrite !convertToOpenAIMessages_turns by auto using startsWithTurn_app.
  apply flat_map_app.
Qed.

Lemma translator_concatenation_witness :
  Rev2.convertToOpenAIMessages (ManyContents (scenarioDialogue ++ scenarioWithSystemTurn))
  = Rev2.convertToOpenAIMessages (ManyContents scenarioDialogue)
    ++ Rev2.convertToOpenAIMessages (ManyContents scenarioWithSystemTurn).
Proof.
  exact (translator_concatenation scenarioDialogue scenarioWithSystemTurn eq_refl eq_refl).
Defined.

(** X2.  In an array of Turns only the Turns of role [user] and
    [model] count: the translation is that of the array with every
    other Turn (of role [system], of any other role, or of none after
    the first) taken out, and it has at most one message per remaining
    Turn. *)
Theorem translator_drops_other_roles (cs : list Content) :
  startsWithTurn cs = true ->
  Rev2.convertToOpenAIMessages (ManyContents cs)
  = Rev2.convertToOpenAIMessages (ManyContents (filter isDialogueTurn cs))
  /\ List.length (Rev2.convertToOpenAIMessages (ManyContents cs))
     <= List.length (filter isDialogueTurn cs).
Proof.
  intros Hcs.
  rewrite (convertToOpenAIMessages_turns cs Hcs).
  rewrite (convertToOpenAIMessages_turns _ (startsWithTurn_filter cs)).
  rewrite flat_map_turnMessage_filter. split; [reflexivity|].
  rewrite <- flat_map_turnMessage_filter. apply flat_map_turnMessage_length.
Qed.

Lemma translator_drops_other_roles_witness :
  Rev2.convertToOpenAIMessages (ManyContents scenarioWithSystemTurn)
  = Rev2.convertToOpenAIMessages (ManyContents scenarioDialogue).
Proof.
  exact (proj1 (translator_drops_other_roles scenarioWithSystemTurn eq_refl)).
Defined.

Lemma segments_contentAsPart (cs : list Content) :
  segments (map contentAsPart cs) = [].
Proof.
  induction cs as [|c cs IH]; simpl; [reflexivity | exact IH].
Qed.


Lemma toString_objects (ps : list Part) :
  map toString (map PObj ps) = repeat "[object Object]" (List.length ps).
Proof.
  induction ps as [|p ps IH]; simpl; [reflexivity | now rewrite IH].
Qed.

(** X4.  In an array that mixes strings and part objects the first
    element decides.  After a leading string every part object is
    rendered as the text "[object Object]", its own text lost; after a
    leading part object the array is one [user] Turn, in which the
    strings and the texts of the part objects are all kept. *)
Theorem mixed_array_head_decides :
  (forall s ps,
      Rev2.convertToOpenAIMessages (ManyParts (PStr s :: map PObj ps))
      = [ {| msg_role := user;
             msg_content :=
               Js.join Js.LF (s :: repeat "[object Object]" (List.length ps)) |} ])
  /\ (forall p rest,
        Rev2.convertToOpenAIMessages (ManyParts (PObj p :: rest))
        = match segments (PObj p :: rest) with
          | [] => []
          | t :: ts =>
              [ {| msg_role := user; msg_content := Js.join Js.LF (t :: ts) |} ]
          end).
Proof.
  split.
  - intros s ps. cbn [Rev2.convertToOpenAIMessages map toString].
    now rewrite toString_objects.
  - intros p rest. cbn [Rev2.convertToOpenAIMessages].
    rewrite translateContents_turns. cbn [flat_map]. rewrite app_nil_r.
    unfold turnMessage, turnTexts. cbn [role parts]. reflexivity.
Qed.

Lemma truthy_append_l (a b : string) :
  Js.truthy a = true -> Js.truthy (a ++ b) = true.
Proof.
  destruct a; [discriminate | reflexivity].
Qed.

Lemma join_head_truthy (sep x : string) (xs : list string) :
  Js.truthy x = true -> Js.truthy (Js.join sep (x :: xs)) = true.
Proof.
  intros H. destruct xs as [|y ys]; [exact H|].
  rewrite join_cons. now apply truthy_append_l.
Qed.

Lemma join_length (sep x : string) (xs : list string) :
  String.length (Js.join sep (x :: xs))
  = list_sum (map String.length (x :: xs)) + List.length xs * String.length sep.
Proof.
  revert x. induction xs as [|y ys IH]; intros x.
  - simpl. lia.
  - rewrite join_cons, !length_append, IH. simpl. lia.
Qed.

Lemma join_app (sep : string) (xs ys : list string) :
  xs <> [] -> ys <> [] ->
  Js.join sep (xs ++ ys) = (Js.join sep xs ++ sep ++ Js.join sep ys)%string.
Proof.
  intros Hx Hy. induction xs as [|x xs IH]; [contradiction|].
  destruct xs as [|x' xs].
  - destruct ys as [|y ys]; [contradiction | reflexivity].
  - change ((x :: x' :: xs) ++ ys) with (x :: x' :: (xs ++ ys)).
    rewrite !join_cons.
    change (x' :: xs ++ ys) with ((x' :: xs) ++ ys).
    rewrite IH by discriminate. now rewrite !append_assoc.
Qed.

Lemma segments_truthy (ps : list PartUnion) (t : string) :
  noEmptyString ps = true -> In t (segments ps) -> Js.truthy t = true.
Proof.
  induction ps as [|p ps IH]; simpl; intros H Hin; [contradiction|].
  apply andb_prop in H as [Hp Hps].
  destruct p as [s|q]; simpl in Hin.
  - destruct Hin as [<-|Hin]; auto.
  - destruct (text q) as [u|]; auto.
    destruct (Js.truthy u) eqn:E; auto.
    destruct Hin as [<-|Hin]; auto.
Qed.

Lemma turnMessage_truthy (c : Content) (m : ChatCompletionMessageParam) :
  noEmptyStringIn c = true -> In m (turnMessage c) -> Js.truthy (msg_content m) = true.
Proof.
  intros Hc Hm. apply turnMessage_role in Hm as (_ & Ht & ->).
  unfold noEmptyStringIn in Hc. unfold turnTexts in *.
  destruct (parts c) as [ps|]; [|contradiction].
  destruct (segments ps) as [|t ts] eqn:E; [contradiction|].
  apply join_head_truthy. apply (segments_truthy ps t Hc). rewrite E. now left.
Qed.

(** X5.  No message sent to the provider is empty: when no bare string
    among the parts of the Turns is the empty string, every message of
    the list [generateContent] sends, the system message included, has
    a non-empty content. *)
Theorem sent_messages_not_empty
    (m : string) (cfg : option GenerateContentConfig) (cs : list Content)
    (msg : ChatCompletionMessageParam) :
  forallb noEmptyStringIn cs = true ->
  In msg
    (p_messages
       (Rev2.generateContent_params
          {| model := m; contents := ManyContents cs; config := cfg |})) ->
  Js.truthy (msg_content msg) = true.
Proof.
  intros Hcs. unfold Rev2.generateContent_params. cbn [p_messages contents].
  rewrite addSystemInstruction_spec, in_app_iff. intros [Hs|Ht].
  - unfold systemMessages in Hs. cbn [config] in Hs.
    destruct (opt_chain cfg systemInstruction) as [si|]; [|contradiction].
    destruct (Js.truthy (effectiveSystemText si)) eqn:E; [|contradiction].
    destruct Hs as [<-|[]]. exact E.
  - destruct cs as [|c cs]; [contradiction|].
    cbn [Rev2.convertToOpenAIMessages] in Ht.
    destruct (Rev2.hasRole c).
    + rewrite translateContents_turns, in_flat_map in Ht.
      destruct Ht as (c' & Hin & Hm).
      apply (turnMessage_truthy c'); [|exact Hm].
      rewrite forallb_forall in Hcs. now apply Hcs.
    + rewrite translateContents_turns in Ht. cbn [flat_map] in Ht.
      rewrite app_nil_r in Ht. unfold turnMessage, turnTexts in Ht.
      cbn [role parts] in Ht. rewrite segments_contentAsPart in Ht.
      destruct (providerRole (Some "user")); contradiction.
Qed.

Lemma sent_messages_not_empty_witness :
  Js.truthy (msg_content {| msg_role := system; msg_content := "Be terse" |}) = true.
Proof.
  exact (sent_messages_not_empty "gpt-4o" (config scenarioRequest) scenarioDialogue
           {| msg_role := system; msg_content := "Be terse" |}
           eq_refl (or_introl eq_refl)).
Defined.

Lemma turnMessage_chars (c : Content) :
  list_sum (map String.length (map msg_content (turnMessage c))) = turnChars c.
Proof.
  unfold turnMessage, turnChars, dialogueTexts, isDialogueTurn.
  destruct (providerRole (role c)) as [r|]; [|reflexivity].
  destruct (turnTexts c) as [|t ts]; [reflexivity|].
  cbn [map list_sum msg_content]. rewrite join_length. simpl. lia.
Qed.

Lemma translated_chars (cs : list Content) :
  list_sum (map String.length (map msg_content (flat_map turnMessage cs)))
  = list_sum (map turnChars cs).
Proof.
  induction cs as [|c cs IH]; [reflexivity|].
  cbn [flat_map map list_sum]. rewrite !map_app, list_sum_app, IH, turnMessage_chars.
  reflexivity.
Qed.

Lemma countTokens_turns (m : string) (cs : list Content) :
  startsWithTurn cs = true ->
  Rev2.countTokens {| ct_model := m; ct_contents := ManyContents cs |}
  = Ok {| totalTokens := Some (Js.ceil_div (list_sum (map turnChars cs)) 4) |}.
Proof.
  intros Hcs. unfold Rev2.countTokens. cbn [ct_contents].
  rewrite (convertToOpenAIMessages_turns cs Hcs), join_empty_length, translated_chars.
  reflexivity.
Qed.

(** X6.  What [countTokens] counts for an array of Turns: the
    characters of the text segments of the [user] and [model] Turns,
    plus one for each line feed between two segments of the same Turn;
    nothing is counted between two Turns, nor for roles, nor for Turns
    of other roles. *)
Theorem countTokens_counts_line_feeds (m : string) (cs : list Content) :
  startsWithTurn cs = true ->
  Rev2.countTokens {| ct_model := m; ct_contents := ManyContents cs |}
  = Ok {| totalTokens := Some (Qceiling (Z.of_nat (list_sum (map turnChars cs)) # 4)) |}.
Proof.
  apply countTokens_turns.
Qed.

Lemma countTokens_counts_line_feeds_witness :
  Rev2.countTokens {| ct_model := "gpt-4o"; ct_contents := ManyContents scenarioWithSystemTurn |}
  = Ok {| totalTokens := Some 4%Z |}.
Proof.
  exact (eq_trans
           (countTokens_counts_line_feeds "gpt-4o" scenarioWithSystemTurn eq_refl)
           eq_refl).
Defined.

(** X7.  The estimate of two arrays of Turns put end to end is at
    least the estimate of each and at most the sum of the two. *)
Theorem countTokens_subadditive (m : string) (a b : list Content) :
  startsWithTurn a = true ->
  startsWithTurn b = true ->
  exists na nb n : Z,
    Rev2.countTokens {| ct_model := m; ct_contents := ManyContents a |}
    = Ok {| totalTokens := Some na |}
    /\ Rev2.countTokens {| ct_model := m; ct_contents := ManyContents b |}
       = Ok {| totalTokens := Some nb |}
    /\ Rev2.countTokens {| ct_model := m; ct_contents := ManyContents (a ++ b) |}
       = Ok {| totalTokens := Some n |}
    /\ (na <= n)%Z /\ (nb <= n)%Z /\ (n <= na + nb)%Z.
Proof.
  intros Ha Hb.
  rewrite !countTokens_turns by auto using startsWithTurn_app.
  do 3 eexists. repeat (split; [reflexivity|]).
  rewrite map_app, list_sum_app.
  pose proof (ceil_div_bounds (list_sum (map turnChars a)) 4).
  pose proof (ceil_div_bounds (list_sum (map turnChars b)) 4).
  pose proof (ceil_div_bounds (list_sum (map turnChars a) + list_sum (map turnChars b)) 4).
  lia.
Qed.

Lemma countTokens_subadditive_witness :
  exists na nb n : Z,
    Rev2.countTokens {| ct_model := "gpt-4o"; ct_contents := ManyContents scenarioDialogue |}
    = Ok {| totalTokens := Some na |}
    /\ Rev2.countTokens
         {| ct_model := "gpt-4o"; ct_contents := ManyContents scenarioWithSystemTurn |}
       = Ok {| totalTokens := Some nb |}
    /\ Rev2.countTokens
         {| ct_model := "gpt-4o";
            ct_contents := ManyContents (scenarioDialogue ++ scenarioWithSystemTurn) |}
       = Ok {| totalTokens := Some n |}
    /\ (na <= n)%Z /\ (nb <= n)%Z /\ (n <= na + nb)%Z.
Proof.
  exact (countTokens_subadditive "gpt-4o" scenarioDialogue scenarioWithSystemTurn
           eq_refl eq_refl).
Defined.

(** ** Further properties of the calls *)

(** X8.  [generateContent] fails exactly when the provider call fails,
    and then with the provider's error; it succeeds exactly when the
    provider answers, and then with the normalized answer, which has one
    candidate and every usage counter. *)
Theorem generateContent_outcomes (client : OpenAI) (request : GenerateContentParameters) :
  (forall e,
      Rev2.generateContent client request = Throw e
      <-> chat_completions_create client (Rev2.generateContent_params request) = Throw e)
  /\ (forall r,
        Rev2.generateContent client request = Ok r
        <-> exists response,
              chat_completions_create client (Rev2.generateContent_params request)
              = Ok response
              /\ r = Rev2.convertToGeminiResponse response)
  /\ (forall r,
        Rev2.generateContent client request = Ok r ->
        exists t reason n1 n2 n3,
          r = oneCandidate t reason
                {| promptTokenCount := Some n1;
                   candidatesTokenCount := Some n2;
                   totalTokenCount := Some n3 |}).
Proof.
  unfold Rev2.generateContent.
  destruct (chat_completions_create client (Rev2.generateContent_params request))
    as [response|e0]; cbn [bind]; repeat split.
  - discriminate.
  - discriminate.
  - intros H. exists response. split; congruence.
  - intros (response' & H & ->). congruence.
  - intros r H. injection H as <-. do 5 eexists. reflexivity.
  - congruence.
  - congruence.
  - discriminate.
  - intros (response & H & _). discriminate.
  - discriminate.
Qed.

(** X9.  The two listings of the Response Normalizer return the same
    response exactly when the finish signal of the first choice is
    neither [length] nor [content_filter]. *)
Theorem normalizers_agree (response : ChatCompletion) :
  Rev1.convertToGeminiResponse response = Rev2.convertToGeminiResponse response
  <-> responseSignal response <> Some "length"
      /\ responseSignal response <> Some "content_filter".
Proof.
  unfold Rev1.convertToGeminiResponse, Rev2.convertToGeminiResponse.
  rewrite responseSignal_chain.
  destruct (strict_eq (responseSignal response) "stop") eqn:E1.
  { apply strict_eq_true in E1. rewrite E1. split; [|reflexivity].
    intros _. split; discriminate. }
  destruct (strict_eq (responseSignal response) "length") eqn:E2.
  { apply strict_eq_true in E2. split; [discriminate | intros [H _]; contradiction]. }
  destruct (strict_eq (responseSignal response) "content_filter") eqn:E3.
  { apply strict_eq_true in E3. split; [discriminate | intros [_ H]; contradiction]. }
  apply strict_eq_false in E2, E3. split; [auto | reflexivity].
Qed.

(** X10.  The text gathered so far is all the stream loop remembers:
    the responses to a stream cut in two are those to the first piece,
    followed by those to the second piece started from the text of the
    first; so a consumer that stops after [k] responses has seen what
    the stream cut after [k] chunks yields. *)
Theorem stream_state_is_text :
  (forall acc s1 s2,
      Rev2.forAwait acc (s1 ++ s2)
      = Rev2.forAwait acc s1
        ++ Rev2.forAwait (acc ++ Js.join "" (map chunkDelta s1))%string s2)
  /\ (forall k acc s,
        firstn k (Rev2.forAwait acc s) = Rev2.forAwait acc (firstn k s)).
Proof.
  split.
  - intros acc s1. revert acc. induction s1 as [|chunk s1 IH]; intros acc s2.
    + cbn [app map Js.join Rev2.forAwait]. now rewrite append_empty_r.
    + change ((chunk :: s1) ++ s2) with (chunk :: (s1 ++ s2)).
      rewrite !forAwait_cons, IH.
      rewrite (proj1 (yieldChunk_text acc chunk)).
      change (map chunkDelta (chunk :: s1)) with (chunkDelta chunk :: map chunkDelta s1).
      now rewrite join_empty_cons, append_assoc.
  - intros k acc s. revert k acc. induction s as [|chunk s IH]; intros k acc.
    + now rewrite !firstn_nil.
    + destruct k as [|k]; [reflexivity|].
      rewrite firstn_cons, !forAwait_cons, firstn_cons, IH. reflexivity.
Qed.

Lemma yieldChunk_shape (acc : string) (chunk : ChatCompletionChunk) :
  exists reason,
    snd (Rev2.yieldChunk acc chunk)
    = oneCandidate (acc ++ chunkDelta chunk) reason zeroUsage.
Proof.
  unfold Rev2.yieldChunk. rewrite chunkDelta_chain. eexists. reflexivity.
Qed.

Lemma forAwait_shape (stream : list ChatCompletionChunk) (acc : string) :
  Forall (fun r => exists t reason, r = oneCandidate t reason zeroUsage)
    (Rev2.forAwait acc stream).
Proof.
  revert acc. induction stream as [|chunk rest IH]; intros acc.
  - constructor.
  - rewrite forAwait_cons. constructor; [|apply IH].
    destruct (yieldChunk_shape acc chunk) as [reason E]. eauto.
Qed.

(** X11.  Whatever the chunks hold, a chunk without choices or without
    a delta included, every streamed response has one candidate at
    index 0 with one text part and a usage record of zeros.  When the
    streaming call is refused nothing is yielded and the generator ends
    with the provider's error; when the stream breaks off, one response
    per delivered chunk has been yielded and the generator ends with
    the stream's failure. *)
Theorem stream_responses_shape (client : OpenAI) (request : GenerateContentParameters) :
  Forall (fun r => exists t reason, r = oneCandidate t reason zeroUsage)
    (yielded (Rev2.generateContentStream client request))
  /\ (forall e,
        chat_completions_stream client (Rev2.streamGenerator_params request) = Throw e ->
        Rev2.generateContentStream client request = {| yielded := []; thrown := Some e |})
  /\ (forall stream,
        chat_completions_stream client (Rev2.streamGenerator_params request) = Ok stream ->
        List.length (yielded (Rev2.generateContentStream client request))
        = List.length (chunks stream)
        /\ thrown (Rev2.generateContentStream client request) = failure stream).
Proof.
  unfold Rev2.generateContentStream.
  destruct (chat_completions_stream client (Rev2.streamGenerator_params request))
    as [stream|e0]; cbn [yielded thrown].
  - split; [apply forAwait_shape|]. split; [discriminate|].
    intros stream' H. injection H as <-. split; [apply forAwait_length | reflexivity].
  - split; [constructor|]. split; [congruence | discriminate].
Qed.

(** ** Further properties of the embedding adapter *)

Lemma dialogueTexts_turnMessage (c : Content) :
  map msg_content (turnMessage c)
  = match dialogueTexts c with
    | [] => []
    | t :: ts => [Js.join Js.LF (t :: ts)]
    end.
Proof.
  unfold turnMessage, dialogueTexts, isDialogueTurn.
  destruct (providerRole (role c)); [|reflexivity].
  destruct (turnTexts c); reflexivity.
Qed.

Lemma join_translated (cs : list Content) :
  Js.join Js.LF (map msg_content (flat_map turnMessage cs))
  = Js.join Js.LF (flat_map dialogueTexts cs)
  /\ (flat_map turnMessage cs = [] <-> flat_map dialogueTexts cs = []).
Proof.
  induction cs as [|c cs [IH1 IH2]]; [split; [reflexivity | tauto]|].
  cbn [flat_map]. rewrite map_app, dialogueTexts_turnMessage.
  pose proof (dialogueTexts_turnMessage c) as Hc.
  destruct (dialogueTexts c) as [|t ts] eqn:Ed.
  - destruct (turnMessage c); [|discriminate]. simpl. split; assumption.
  - destruct (turnMessage c) as [|m0 l0] eqn:Em; [discriminate|].
    split; [|split; discriminate].
    destruct (flat_map dialogueTexts cs) as [|u us] eqn:Eu.
    + rewrite (proj2 IH2 eq_refl) in *. simpl in IH1.
      rewrite !app_nil_r. reflexivity.
    + assert (Hne : flat_map turnMessage cs <> []).
      { intros H. apply IH2 in H. discriminate. }
      destruct (map msg_content (flat_map turnMessage cs)) as [|b bs] eqn:Eb.
      { destruct (flat_map turnMessage cs); [contradiction | discriminate]. }
      change ([Js.join Js.LF (t :: ts)] ++ b :: bs)
        with (Js.join Js.LF (t :: ts) :: b :: bs).
      rewrite join_cons, IH1.
      rewrite (join_app Js.LF (t :: ts) (u :: us)) by discriminate.
      reflexivity.
Qed.

(** X12.  The text sent for the embedding of an array of Turns is the
    newline-join of all the text segments of its [user] and [model]
    Turns, in order: the boundaries between Turns and the roles leave no
    trace in it. *)
Theorem embedContent_flattens_turns (m : string) (cs : list Content) :
  startsWithTurn cs = true ->
  e_input (Rev2.embedContent_params {| ec_model := m; ec_contents := ManyContents cs |})
  = Js.join Js.LF (flat_map dialogueTexts cs).
Proof.
  intros Hcs. unfold Rev2.embedContent_params. cbn [e_input ec_contents].
  rewrite (convertToOpenAIMessages_turns cs Hcs). apply join_translated.
Qed.

Lemma embedContent_flattens_turns_witness :
  e_input
    (Rev2.embedContent_params
       {| ec_model := "gemini-embedding-001";
          ec_contents := ManyContents scenarioWithSystemTurn |})
  = Js.join Js.LF ["What is"; "2 + 2?"; "4"].
Proof.
  exact (eq_trans
           (embedContent_flattens_turns "gemini-embedding-001" scenarioWithSystemTurn eq_refl)
           eq_refl).
Defined.

(** X13.  [embedContent] succeeds exactly when the provider answers
    with at least one vector, and then with the first one alone; a
    provider error is passed on as it is, and an answer without any
    vector makes it throw a [TypeError]. *)
Theorem embedContent_outcomes (client : OpenAI) (request : EmbedContentParameters) :
  (forall r,
      Rev2.embedContent client request = Ok r
      <-> exists response first others,
            embeddings_create client (Rev2.embedContent_params request) = Ok response
            /\ data response = first :: others
            /\ r = {| embeddings := Some [ {| values := Some (embedding first) |} ] |})
  /\ (forall e,
        embeddings_create client (Rev2.embedContent_params request) = Throw e ->
        Rev2.embedContent client request = Throw e)
  /\ (forall response,
        embeddings_create client (Rev2.embedContent_params request) = Ok response ->
        data response = [] ->
        exists what, Rev2.embedContent client request = Throw (TypeError what)).
Proof.
  unfold Rev2.embedContent.
  destruct (embeddings_create client (Rev2.embedContent_params request))
    as [response|e0]; cbn [bind].
  - destruct (data response) as [|first others] eqn:Ed.
    + split; [|split].
      * intros r. split; [discriminate|].
        intros (response' & f & o & H & Hd & _). injection H as <-. congruence.
      * discriminate.
      * intros response' H _. eexists. reflexivity.
    + split; [|split].
      * intros r. split.
        -- intros H. injection H as <-. exists response, first, others. auto.
        -- intros (response' & f & o & H & Hd & ->). injection H as <-.
           rewrite Ed in Hd. injection Hd as <- <-. reflexivity.
      * discriminate.
      * intros response' H Hd. injection H as <-. congruence.
  - split; [|split].
    + intros r. split; [discriminate|].
      intros (response & f & o & H & _). discriminate.
    + congruence.
    + discriminate.
Qed.

(** ** The first listing's translator *)

Lemma filterText_cases (ps : list PartUnion) :
  (forallb (fun p => match p with PObj _ => true | PStr _ => false end) ps = true
   /\ Rev1.filterText ps = Ok (segments ps))
  \/ (forallb (fun p => match p with PObj _ => true | PStr _ => false end) ps = false
      /\ exists what, Rev1.filterText ps = Throw (TypeError what)).
Proof.
  induction ps as [|p ps IH]; [left; split; reflexivity|].
  destruct p as [s|q].
  - right. split; [reflexivity|]. eexists. reflexivity.
  - cbn [forallb andb Rev1.filterText].
    destruct IH as [[Ht Hf]|[Ht [what Hf]]]; rewrite Hf; cbn [bind].
    + left. split; [exact Ht|]. simpl.
      destruct (text q) as [t|]; [|reflexivity].
      destruct (Js.truthy t); reflexivity.
    + right. split; [exact Ht|]. eexists. reflexivity.
Qed.

Lemma textPartsOf_cases (c : Content) :
  (typedTurn c = true /\ Rev1.textPartsOf c = Ok (turnTexts c))
  \/ (typedTurn c = false /\ exists what, Rev1.textPartsOf c = Throw (TypeError what)).
Proof.
  unfold typedTurn, Rev1.textPartsOf, turnTexts.
  destruct (parts c) as [ps|]; [apply filterText_cases|].
  right. split; [reflexivity|]. eexists. reflexivity.
Qed.

Lemma pushContent1_cases (messages : list ChatCompletionMessageParam) (c : Content) :
  (readable1 c = true /\ Rev1.pushContent messages c = Ok (messages ++ turnMessage c))
  \/ (readable1 c = false
      /\ exists what, Rev1.pushContent messages c = Throw (TypeError what)).
Proof.
  unfold readable1, isDialogueTurn, Rev1.pushContent, turnMessage.
  destruct (strict_eq (role c) "user") eqn:Eu.
  { rewrite (providerRole_user _ Eu).
    destruct (textPartsOf_cases c) as [[Ht Hf]|[Ht [what Hf]]]; rewrite Hf; cbn [bind].
    - left. split; [exact Ht|].
      destruct (turnTexts c); simpl; [now rewrite app_nil_r | reflexivity].
    - right. split; [exact Ht|]. eexists. reflexivity. }
  destruct (strict_eq (role c) "model") eqn:Em.
  { rewrite (providerRole_model _ Em).
    destruct (textPartsOf_cases c) as [[Ht Hf]|[Ht [what Hf]]]; rewrite Hf; cbn [bind].
    - left. split; [exact Ht|].
      destruct (turnTexts c); simpl; [now rewrite app_nil_r | reflexivity].
    - right. split; [exact Ht|]. eexists. reflexivity. }
  rewrite (providerRole_other _ Eu Em). left. split; [reflexivity|].
  now rewrite app_nil_r.
Qed.

Lemma forOf_cases (cs : list Content) (messages : list ChatCompletionMessageParam) :
  (forallb readable1 cs = true
   /\ Rev1.forOf messages cs = Ok (messages ++ flat_map turnMessage cs))
  \/ (forallb readable1 cs = false
      /\ exists what, Rev1.forOf messages cs = Throw (TypeError what)).
Proof.
  revert messages. induction cs as [|c cs IH]; intros messages.
  - left. split; [reflexivity|]. simpl. now rewrite app_nil_r.
  - cbn [forallb Rev1.forOf flat_map].
    destruct (pushContent1_cases messages c) as [[Hr Hp]|[Hr [what Hp]]];
      rewrite Hr, Hp; cbn [bind andb].
    + destruct (IH (messages ++ turnMessage c)) as [[Hs Hf]|[Hs [what Hf]]].
      * left. split; [exact Hs|]. now rewrite Hf, <- app_assoc.
      * right. split; [exact Hs|]. eauto.
    + right. split; [reflexivity|]. eauto.
Qed.

Lemma first_listing_translator_outcomes_aux
    (cs : list Content) (ms : list ChatCompletionMessageParam) :
  Rev1.convertToOpenAIMessages cs = Ok ms
  <-> forallb readable1 cs = true /\ ms = flat_map turnMessage cs.
Proof.
  unfold Rev1.convertToOpenAIMessages.
  destruct (forOf_cases cs []) as [[Hs Hf]|[Hs [what Hf]]]; rewrite Hs, Hf.
  - split.
    + intros H. injection H as <-. auto.
    + intros [_ ->]. reflexivity.
  - split; [discriminate | intros [H _]; discriminate].
Qed.

(** X14.  The first listing's translator succeeds exactly when every
    Turn of role [user] or [model] has its [parts] and no bare string
    among them, and then it returns the Turn-by-Turn messages; in every
    other case it throws a [TypeError].  Turns of other roles are never
    read, whatever they hold. *)
Theorem first_listing_translator_outcomes (cs : list Content) :
  (forall ms,
      Rev1.convertToOpenAIMessages cs = Ok ms
      <-> forallb readable1 cs = true /\ ms = flat_map turnMessage cs)
  /\ (forallb readable1 cs = false ->
      exists what, Rev1.convertToOpenAIMessages cs = Throw (TypeError what)).
Proof.
  unfold Rev1.convertToOpenAIMessages.
  destruct (forOf_cases cs []) as [[Hs Hf]|[Hs [what Hf]]]; rewrite Hs, Hf.
  - split; [|discriminate]. intros ms. split.
    + intros H. injection H as <-. auto.
    + intros [_ ->]. reflexivity.
  - split; [|eauto]. intros ms. split; [discriminate | intros [H _]; discriminate].
Qed.

(** X15.  The second listing extends the first: on an array of Turns
    that the first listing translates, it returns the same messages. *)
Theorem second_listing_extends_first
    (cs : list Content) (ms : list ChatCompletionMessageParam) :
  Rev1.convertToOpenAIMessages cs = Ok ms ->
  startsWithTurn cs = true ->
  Rev2.convertToOpenAIMessages (ManyContents cs) = ms.
Proof.
  intros H1 Hcs.
  apply (proj1 (first_listing_translator_outcomes_aux cs ms)) in H1 as [_ ->].
  now apply convertToOpenAIMessages_turns.
Qed.

Lemma second_listing_extends_first_witness :
  Rev2.convertToOpenAIMessages (ManyContents scenarioWithSystemTurn)
  = [ {| msg_role := user;
         msg_content := Js.join Js.LF ["What is"; "2 + 2?"] |};
      {| msg_role := assistant; msg_content := "4" |} ].
Proof.
  exact (second_listing_extends_first scenarioWithSystemTurn _ eq_refl eq_refl).
Defined.

(** ** The key entry dialog's input filter *)

Lemma keyChar_not_lineBreak (c : ascii) :
  ApiAuthDialog.keyChar c = true -> ApiAuthDialog.lineBreak c = false.
Proof.
  unfold ApiAuthDialog.keyChar, ApiAuthDialog.between, ApiAuthDialog.lineBreak.
  rewrite !orb_true_iff, !andb_true_iff, !Nat.leb_le, !Nat.eqb_eq.
  intros H. apply orb_false_iff. rewrite !Nat.eqb_neq. lia.
Qed.

Lemma removeAll_kept (inClass : ascii -> bool) (text : string) :
  allChars (fun c => negb (inClass c)) (ApiAuthDialog.removeAll inClass text) = true.
Proof.
  induction text as [|c text IH]; simpl; [reflexivity|].
  destruct (inClass c) eqn:E; simpl; [exact IH | now rewrite E].
Qed.

Lemma removeAll_nothing (inClass : ascii -> bool) (text : string) :
  allChars (fun c => negb (inClass c)) text = true ->
  ApiAuthDialog.removeAll inClass text = text.
Proof.
  induction text as [|c text IH]; simpl; [reflexivity|].
  intros H. apply andb_prop in H as [Hc Ht].
  apply negb_true_iff in Hc. now rewrite Hc, IH.
Qed.

Lemma allChars_impl (p q : ascii -> bool) (text : string) :
  (forall c, p c = true -> q c = true) ->
  allChars p text = true -> allChars q text = true.
Proof.
  intros Hpq. induction text as [|c text IH]; simpl; [reflexivity|].
  intros H. apply andb_prop in H as [Hc Ht]. now rewrite (Hpq c Hc), IH.
Qed.

Lemma removeAll_app (inClass : ascii -> bool) (a b : string) :
  ApiAuthDialog.removeAll inClass (a ++ b)
  = (ApiAuthDialog.removeAll inClass a ++ ApiAuthDialog.removeAll inClass b)%string.
Proof.
  induction a as [|c a IH]; simpl; [reflexivity|].
  destruct (inClass c); simpl; now rewrite IH.
Qed.

Lemma removeAll_length (inClass : ascii -> bool) (text : string) :
  String.length (ApiAuthDialog.removeAll inClass text) <= String.length text.
Proof.
  induction text as [|c text IH]; simpl; [lia|].
  destruct (inClass c); simpl; lia.
Qed.

Lemma notKeyChar_kept (text : string) :
  allChars ApiAuthDialog.keyChar
    (ApiAuthDialog.removeAll ApiAuthDialog.notKeyChar text) = true.
Proof.
  apply (allChars_impl (fun c => negb (ApiAuthDialog.notKeyChar c))).
  - intros c H. unfold ApiAuthDialog.notKeyChar in H. now rewrite negb_involutive in H.
  - apply removeAll_kept.
Qed.

Lemma inputFilter_first_replace (text : string) :
  ApiAuthDialog.inputFilter text
  = ApiAuthDialog.removeAll ApiAuthDialog.notKeyChar text.
Proof.
  unfold ApiAuthDialog.inputFilter. apply removeAll_nothing.
  apply (allChars_impl ApiAuthDialog.keyChar); [|apply notKeyChar_kept].
  intros c H. now rewrite (keyChar_not_lineBreak c H).
Qed.

(** X16.  What the filter of the key field lets through is made of
    letters, digits, [_] and [-] only; a text is left as it is exactly
    when it is made of these; and filtering twice is filtering once. *)
Theorem inputFilter_key_characters (text : string) :
  allChars ApiAuthDialog.keyChar (ApiAuthDialog.inputFilter text) = true
  /\ (ApiAuthDialog.inputFilter text = text
      <-> allChars ApiAuthDialog.keyChar text = true)
  /\ ApiAuthDialog.inputFilter (ApiAuthDialog.inputFilter text)
     = ApiAuthDialog.inputFilter text.
Proof.
  assert (fixed : forall t, allChars ApiAuthDialog.keyChar t = true ->
                            ApiAuthDialog.inputFilter t = t).
  { intros t H. rewrite inputFilter_first_replace. apply removeAll_nothing.
    apply (allChars_impl ApiAuthDialog.keyChar); [|exact H].
    intros c Hc. unfold ApiAuthDialog.notKeyChar. now rewrite Hc. }
  assert (kept : allChars ApiAuthDialog.keyChar (ApiAuthDialog.inputFilter text) = true).
  { rewrite inputFilter_first_replace. apply notKeyChar_kept. }
  split; [exact kept|]. split; [|now apply fixed].
  split; [intros H; now rewrite <- H | apply fixed].
Qed.

(** X17.  The filter works unit by unit: the filtered text of two
    pieces put end to end is the two filtered pieces put end to end, it
    is never longer than the text, and the second replacement, of
    carriage returns and line feeds, never finds anything to remove. *)
Theorem inputFilter_piecewise (a b : string) :
  ApiAuthDialog.inputFilter (a ++ b)
  = (ApiAuthDialog.inputFilter a ++ ApiAuthDialog.inputFilter b)%string
  /\ String.length (ApiAuthDialog.inputFilter a) <= String.length a
  /\ ApiAuthDialog.inputFilter a
     = ApiAuthDialog.removeAll ApiAuthDialog.notKeyChar a.
Proof.
  rewrite !inputFilter_first_replace.
  split; [apply removeAll_app|]. split; [apply removeAll_length | reflexivity].
Qed.

Example inputFilter_pasted_key :
  ApiAuthDialog.inputFilter
    ("sk-proj_Ab12" ++ Js.LF ++ " cd.34 " ++ String (ascii_of_nat 13) "")
  = "sk-proj_Ab12cd34".
Proof. reflexivity. Qed.

(** ** Bare strings and parts without text *)

(** X18.  A bare string among the parts is never filtered: it gives a
    segment even when it is empty, so a [user] Turn made of one bare
    string becomes a message with that string as content, the empty
    string included, where a part object with an empty text gives
    none. *)
Theorem bare_string_always_kept :
  (forall ps qs s,
      Rev2.collectTextParts (ps ++ PStr s :: qs)
      = Rev2.collectTextParts ps ++ s :: Rev2.collectTextParts qs)
  /\ (forall s,
        Rev2.convertToOpenAIMessages
          (OneContent {| role := Some "user"; parts := Some [PStr s] |})
        = [ {| msg_role := user; msg_content := s |} ])
  /\ (forall payload,
        Rev2.convertToOpenAIMessages
          (OneContent {| role := Some "user"; parts := Some [emptyTextPart payload] |})
        = []).
Proof.
  split; [|split].
  - intros ps qs s. rewrite !collectTextParts_segments, segments_app. reflexivity.
  - reflexivity.
  - reflexivity.
Qed.

Lemma segments_skip_textless (p : PartUnion) (ps qs : list PartUnion) :
  textBearing p = None -> segments (ps ++ p :: qs) = segments (ps ++ qs).
Proof.
  intros H. rewrite !segments_app. simpl. now rewrite H.
Qed.

Lemma translateContents_skip_textless (p : PartUnion) (r : option string)
    (ps qs : list PartUnion) (before after : list Content) :
  textBearing p = None ->
  Rev2.translateContents
    (before ++ {| role := r; parts := Some (ps ++ p :: qs) |} :: after)
  = Rev2.translateContents
      (before ++ {| role := r; parts := Some (ps ++ qs) |} :: after).
Proof.
  intros H. rewrite !translateContents_turns, !flat_map_app. cbn [flat_map].
  unfold turnMessage, turnTexts. cbn [role parts].
  now rewrite (segments_skip_textless p ps qs H).
Qed.

(** X19.  A part object without [text] (an image, a function call) is
    dropped without a trace: the messages of an array of Turns, the
    resolved system text and the text sent for embedding are the same
    with it and without it, and a Turn made of such parts only yields
    no message. *)
Theorem textless_part_is_dropped (payload : option string) :
  let p := PObj {| text := None; inlineData := payload |} in
  (forall before after r ps qs,
      Rev2.convertToOpenAIMessages
        (ManyContents (before ++ {| role := r; parts := Some (ps ++ p :: qs) |} :: after))
      = Rev2.convertToOpenAIMessages
          (ManyContents (before ++ {| role := r; parts := Some (ps ++ qs) |} :: after)))
  /\ (forall ps qs,
        Rev2.systemTextOf (SIParts (ps ++ p :: qs)) = Rev2.systemTextOf (SIParts (ps ++ qs)))
  /\ (forall m before after r ps qs,
        Rev2.embedContent_params
          {| ec_model := m;
             ec_contents :=
               ManyContents
                 (before ++ {| role := r; parts := Some (ps ++ p :: qs) |} :: after) |}
        = Rev2.embedContent_params
            {| ec_model := m;
               ec_contents :=
                 ManyContents
                   (before ++ {| role := r; parts := Some (ps ++ qs) |} :: after) |})
  /\ (forall r payloads,
        Rev2.convertToOpenAIMessages
          (OneContent
             {| role := r;
                parts :=
                  Some (map (fun d => PObj {| text := None; inlineData := d |}) payloads) |})
        = []).
Proof.
  intros p.
  assert (Hp : textBearing p = None) by reflexivity.
  assert (conv : forall before after r ps qs,
      Rev2.convertToOpenAIMessages
        (ManyContents (before ++ {| role := r; parts := Some (ps ++ p :: qs) |} :: after))
      = Rev2.convertToOpenAIMessages
          (ManyContents (before ++ {| role := r; parts := Some (ps ++ qs) |} :: after))).
  { intros before after r ps qs. destruct before as [|b before].
    - cbn [app Rev2.convertToOpenAIMessages]. unfold Rev2.hasRole. cbn [role].
      destruct r as [s|]; [|reflexivity].
      apply (translateContents_skip_textless p (Some s) ps qs [] after Hp).
    - cbn [app Rev2.convertToOpenAIMessages].
      destruct (Rev2.hasRole b).
      + apply (translateContents_skip_textless p r ps qs (b :: before) after Hp).
      + change (b :: before ++ ?c :: after) with ((b :: before) ++ c :: after).
        now rewrite (contentAsPart_blind (b :: before) after
                       {| role := r; parts := Some (ps ++ p :: qs) |}
                       {| role := r; parts := Some (ps ++ qs) |}). }
  split; [exact conv|]. split; [|split].
  - intros ps qs. rewrite !systemTextOf_effective. unfold effectiveSystemText.
    cbn [instructionParts]. now rewrite (segments_skip_textless p ps qs Hp).
  - intros m before after r ps qs. unfold Rev2.embedContent_params. cbn [ec_contents].
    now rewrite conv.
  - intros r payloads.
    assert (Hs : segments (map (fun d => PObj {| text := None; inlineData := d |}) payloads)
                 = []).
    { induction payloads as [|d ds IH]; [reflexivity | exact IH]. }
    cbn [Rev2.convertToOpenAIMessages]. unfold Rev2.hasRole. cbn [role].
    destruct r as [s|]; [|reflexivity].
    rewrite translateContents_turns. cbn [flat_map]. rewrite app_nil_r.
    unfold turnMessage, turnTexts. cbn [role parts]. rewrite Hs.
    now destruct (providerRole (Some s)).
Qed.
